(** * A shallow embedding of [any_worker::Rate] (src/any_worker/src/Rate.cpp)

    The pacer is modelled as a record holding the members of the C++ class,
    and every member function as a Rocq function on that record.  The two
    clock reads of [sleep()] are inputs; the call to [clock_nanosleep] and
    the log streams are outputs.

    Modelling choices:
    - [double] is [dbl]: a finite value is an exact rational (kept in
      lowest terms by [Qred]), and NaN and the two infinities are
      constructors of their own.  Rounding is not modelled; comparisons
      with NaN are false, as in IEEE 754.
    - [long] and [time_t] are [Z]; a conversion from [double] or a signed
      operation whose result leaves the 64-bit range is undefined
      behaviour, modelled as [None].
    - [unsigned int] counters are [Z] with their wrap-around modulo 2^32. *)

From Stdlib Require Import ZArith QArith Qround Qabs Lqa List String Bool Lia.
Import ListNotations.

Open Scope Z_scope.

(** ** Doubles *)

Inductive dbl : Type :=
| DFin (q : Q)
| DPInf
| DNInf
| DNaN.

Definition dneg (a : dbl) : dbl :=
  match a with
  | DFin q => DFin (- q)%Q
  | DPInf => DNInf
  | DNInf => DPInf
  | DNaN => DNaN
  end.

Definition dadd (a b : dbl) : dbl :=
  match a, b with
  | DNaN, _ | _, DNaN => DNaN
  | DFin x, DFin y => DFin (Qred (x + y))
  | DPInf, DNInf | DNInf, DPInf => DNaN
  | DPInf, _ | _, DPInf => DPInf
  | DNInf, _ | _, DNInf => DNInf
  end.

Definition dsub (a b : dbl) : dbl := dadd a (dneg b).

(** The sign of a finite value: [Gt], [Eq] or [Lt]. *)
Definition qsign (q : Q) : comparison := Qcompare q 0.

Definition inf_of_sign (c : comparison) : dbl :=
  match c with
  | Gt => DPInf
  | Lt => DNInf
  | Eq => DNaN
  end.

Definition sign_mul (c d : comparison) : comparison :=
  match c, d with
  | Eq, _ | _, Eq => Eq
  | Gt, Gt | Lt, Lt => Gt
  | _, _ => Lt
  end.

Definition dsign (a : dbl) : comparison :=
  match a with
  | DFin q => qsign q
  | DPInf => Gt
  | DNInf => Lt
  | DNaN => Eq
  end.

Definition dmul (a b : dbl) : dbl :=
  match a, b with
  | DNaN, _ | _, DNaN => DNaN
  | DFin x, DFin y => DFin (Qred (x * y))
  | _, _ => inf_of_sign (sign_mul (dsign a) (dsign b))
  end.

(** Division; a zero divisor is the positive zero (the divisors of the
    program are converted unsigned counters). *)
Definition ddiv (a b : dbl) : dbl :=
  match a, b with
  | DNaN, _ | _, DNaN => DNaN
  | DFin x, DFin y =>
      match qsign y with
      | Eq => inf_of_sign (qsign x)
      | _ => DFin (Qred (x / y))
      end
  | DFin _, _ => DFin 0
  | _, DFin y =>
      match qsign y with
      | Eq => a
      | c => inf_of_sign (sign_mul (dsign a) c)
      end
  | _, _ => DNaN
  end.

(** Ordered comparison; [None] when a NaN is involved. *)
Definition dcmp (a b : dbl) : option comparison :=
  match a, b with
  | DNaN, _ | _, DNaN => None
  | DFin x, DFin y => Some (Qcompare x y)
  | DPInf, DPInf | DNInf, DNInf => Some Eq
  | DPInf, _ | _, DNInf => Some Gt
  | DNInf, _ | _, DPInf => Some Lt
  end.

Definition dlt (a b : dbl) : bool :=
  match dcmp a b with Some Lt => true | _ => false end.
Definition dgt (a b : dbl) : bool :=
  match dcmp a b with Some Gt => true | _ => false end.
Definition dge (a b : dbl) : bool :=
  match dcmp a b with Some Gt | Some Eq => true | _ => false end.

Definition isnan (a : dbl) : bool :=
  match a with DNaN => true | _ => false end.
Definition isinf (a : dbl) : bool :=
  match a with DPInf | DNInf => true | _ => false end.

(** ** Machine integers *)

Definition LONG_MIN : Z := - 2 ^ 63.
Definition LONG_MAX : Z := 2 ^ 63 - 1.

(** A signed 64-bit result; out of range is undefined behaviour. *)
Definition to_long (z : Z) : option Z :=
  if (LONG_MIN <=? z) && (z <=? LONG_MAX) then Some z else None.

(** Conversion of a [double] to [long]: truncation toward zero. *)
Definition Qtrunc (q : Q) : Z := Z.quot (Qnum q) (Zpos (Qden q)).

Definition long_of_dbl (a : dbl) : option Z :=
  match a with
  | DFin q => to_long (Qtrunc q)
  | _ => None
  end.

Definition UINT_MOD : Z := 2 ^ 32.

(** [x++] on an [unsigned int]. *)
Definition uint_incr (x : Z) : Z := (x + 1) mod UINT_MOD.

Definition dbl_of_Z (z : Z) : dbl := DFin (inject_Z z).

(** ** Time *)

Record timespec : Type := mkTimespec {
  tv_sec : Z;
  tv_nsec : Z
}.

(** Modelled from the spec: the constants [NSecPerSec_] and [SecPerNSec_]
    declared in Rate.hpp (not under src/), nanoseconds per second and its
    inverse. *)
Definition NSecPerSec_ : Z := 1000000000.
Definition SecPerNSec_ : dbl := DFin (1 # 1000000000).

(** The instant a [timespec] denotes, in nanoseconds. *)
Definition ts_val (t : timespec) : Z := tv_sec t * NSecPerSec_ + tv_nsec t.

Definition normalized (t : timespec) : Prop := 0 <= tv_nsec t < NSecPerSec_.

(** [Rate::GetDuration]. *)
Definition GetDuration (start end_ : timespec) : option dbl :=
  match to_long (tv_sec end_ - tv_sec start), to_long (tv_nsec end_ - tv_nsec start) with
  | Some ds, Some dn => Some (dadd (dbl_of_Z ds) (dmul (dbl_of_Z dn) SecPerNSec_))
  | _, _ => None
  end.

(** [Rate::TimeStepIsValid] and [Rate::MaxTimeStepIsValid]. *)
Definition TimeStepIsValid (timeStep : dbl) : bool :=
  dge timeStep (DFin 0) && negb (isinf timeStep) && negb (isnan timeStep).

Definition MaxTimeStepIsValid (maxTimeStep : dbl) : bool :=
  dge maxTimeStep (DFin 0) && negb (isnan maxTimeStep).

(** ** The pacer *)

(** The members of [Rate] (Rate.hpp is not under src/; the members are the
    ones Rate.cpp reads and writes). *)
Record Rate : Type := mkRate {
  name_ : string;
  timeStep_ : dbl;
  maxTimeStepWarning_ : dbl;
  maxTimeStepError_ : dbl;
  enforceRate_ : bool;
  clockId_ : Z;
  sleepStartTime_ : timespec;
  sleepEndTime_ : timespec;
  stepTime_ : timespec;
  numTimeSteps_ : Z;
  numWarnings_ : Z;
  numErrors_ : Z;
  awakeTime_ : dbl;
  awakeTimeMean_ : dbl;
  awakeTimeM2_ : dbl
}.

(** A message to the logger: [MELO_ERROR_STREAM] or [MELO_WARN_STREAM],
    with the pacer name and the numbers the message prints, in order. *)
Inductive diag : Type :=
| MeloError (name : string) (values : list dbl)
| MeloWarn (name : string) (values : list dbl).

(** What [sleep()] does last: return, or
    [clock_nanosleep(clockId_, TIMER_ABSTIME, &stepTime_, NULL)]. *)
Inductive action : Type :=
| NoWait
| NanosleepAbs (clock : Z) (until : timespec).

Notation "x <- c ;; k" := (match c with Some x => k | None => None end)
  (at level 61, c at next level, right associativity).

(** *** Setters *)

Definition setTimeStep (r : Rate) (timeStep : dbl) : Rate * list diag :=
  if negb (TimeStepIsValid timeStep) then (r, [MeloError (name_ r) [timeStep]])
  else (mkRate (name_ r) timeStep (maxTimeStepWarning_ r) (maxTimeStepError_ r)
          (enforceRate_ r) (clockId_ r) (sleepStartTime_ r) (sleepEndTime_ r)
          (stepTime_ r) (numTimeSteps_ r) (numWarnings_ r) (numErrors_ r)
          (awakeTime_ r) (awakeTimeMean_ r) (awakeTimeM2_ r), []).

Definition setMaxTimeStepWarning (r : Rate) (maxTimeStepWarning : dbl) : Rate * list diag :=
  if negb (MaxTimeStepIsValid maxTimeStepWarning)
  then (r, [MeloError (name_ r) [maxTimeStepWarning]])
  else (mkRate (name_ r) (timeStep_ r) maxTimeStepWarning (maxTimeStepError_ r)
          (enforceRate_ r) (clockId_ r) (sleepStartTime_ r) (sleepEndTime_ r)
          (stepTime_ r) (numTimeSteps_ r) (numWarnings_ r) (numErrors_ r)
          (awakeTime_ r) (awakeTimeMean_ r) (awakeTimeM2_ r), []).

Definition setMaxTimeStepError (r : Rate) (maxTimeStepError : dbl) : Rate * list diag :=
  if negb (MaxTimeStepIsValid maxTimeStepError)
  then (r, [MeloError (name_ r) [maxTimeStepError]])
  else (mkRate (name_ r) (timeStep_ r) (maxTimeStepWarning_ r) maxTimeStepError
          (enforceRate_ r) (clockId_ r) (sleepStartTime_ r) (sleepEndTime_ r)
          (stepTime_ r) (numTimeSteps_ r) (numWarnings_ r) (numErrors_ r)
          (awakeTime_ r) (awakeTimeMean_ r) (awakeTimeM2_ r), []).

Definition setEnforceRate (r : Rate) (enforceRate : bool) : Rate :=
  mkRate (name_ r) (timeStep_ r) (maxTimeStepWarning_ r) (maxTimeStepError_ r)
    enforceRate (clockId_ r) (sleepStartTime_ r) (sleepEndTime_ r)
    (stepTime_ r) (numTimeSteps_ r) (numWarnings_ r) (numErrors_ r)
    (awakeTime_ r) (awakeTimeMean_ r) (awakeTimeM2_ r).

(** *** [Rate::reset]; [now] is the value [clock_gettime] returns. *)

Definition reset (r : Rate) (now : timespec) : Rate :=
  mkRate (name_ r) (timeStep_ r) (maxTimeStepWarning_ r) (maxTimeStepError_ r)
    (enforceRate_ r) (clockId_ r) now now now 0 0 0 (DFin 0) (DFin 0) (DFin 0).

(** *** [Rate::sleep] *)

(** The statistics update, lines 173-177: returns the new
    [numTimeSteps_], [awakeTimeMean_] and [awakeTimeM2_]. *)
Definition update_stats (numTimeSteps : Z) (awakeTimeMean awakeTimeM2 awakeTime : dbl)
  : Z * dbl * dbl :=
  let numTimeSteps' := uint_incr numTimeSteps in
  let delta := dsub awakeTime awakeTimeMean in
  let awakeTimeMean' := dadd awakeTimeMean (ddiv delta (dbl_of_Z numTimeSteps')) in
  let delta2 := dsub awakeTime awakeTimeMean' in
  let awakeTimeM2' := dadd awakeTimeM2 (dmul delta delta2) in
  (numTimeSteps', awakeTimeMean', awakeTimeM2').

(** The threshold check, lines 180-190: returns the new [numWarnings_],
    [numErrors_] and the messages.  Both messages print [awakeTime_] and
    [timeStep_]. *)
Definition check_thresholds (r : Rate) (awakeTime : dbl) : Z * Z * list diag :=
  if dgt awakeTime (maxTimeStepError_ r) then
    (numWarnings_ r, uint_incr (numErrors_ r),
     [MeloError (name_ r) [awakeTime; timeStep_ r]])
  else if dgt awakeTime (maxTimeStepWarning_ r) then
    (uint_incr (numWarnings_ r), numErrors_ r,
     [MeloWarn (name_ r) [awakeTime; timeStep_ r]])
  else (numWarnings_ r, numErrors_ r, []).

(** Lines 193-195: [tv_nsec += timeStep_ * NSecPerSec_] (a [double]
    converted back to [long]), then the carry into [tv_sec]; [/] and [%]
    of C truncate toward zero. *)
Definition advance_step_time (stepTime : timespec) (timeStep : dbl) : option timespec :=
  nsec <- long_of_dbl (dadd (dbl_of_Z (tv_nsec stepTime))
                            (dmul timeStep (dbl_of_Z NSecPerSec_))) ;;
  sec <- to_long (tv_sec stepTime + Z.quot nsec NSecPerSec_) ;;
  Some (mkTimespec sec (Z.rem nsec NSecPerSec_)).

(** [Rate::sleep]: [now1] and [now2] are the two values [clock_gettime]
    returns, the first into [sleepStartTime_], the second into
    [sleepEndTime_]. *)
Definition sleep (r : Rate) (now1 now2 : timespec)
  : option (Rate * list diag * action) :=
  awakeTime <- GetDuration (sleepEndTime_ r) now1 ;;
  let '(numTimeSteps, awakeTimeMean, awakeTimeM2) :=
    update_stats (numTimeSteps_ r) (awakeTimeMean_ r) (awakeTimeM2_ r) awakeTime in
  let '(numWarnings, numErrors, logs) := check_thresholds r awakeTime in
  stepTime <- advance_step_time (stepTime_ r) (timeStep_ r) ;;
  d <- GetDuration now2 stepTime ;;
  let isBehind := dlt d (DFin 0) in
  let mk sleepEnd step :=
    mkRate (name_ r) (timeStep_ r) (maxTimeStepWarning_ r) (maxTimeStepError_ r)
      (enforceRate_ r) (clockId_ r) now1 sleepEnd step
      numTimeSteps numWarnings numErrors awakeTime awakeTimeMean awakeTimeM2 in
  if isBehind then
    if negb (enforceRate_ r) then Some (mk now2 now2, logs, NoWait)
    else Some (mk now2 stepTime, logs, NoWait)
  else Some (mk stepTime stepTime, logs, NanosleepAbs (clockId_ r) stepTime).

(** *** Accessors *)

Definition getAwakeTime (r : Rate) : dbl :=
  if numTimeSteps_ r =? 0 then DNaN else awakeTime_ r.

Definition getAwakeTimeMean (r : Rate) : dbl :=
  if numTimeSteps_ r =? 0 then DNaN else awakeTimeMean_ r.

(** [awakeTimeM2_ / (numTimeSteps_ - 1)]: unsigned subtraction, then the
    conversion to [double]. *)
Definition getAwakeTimeVar (r : Rate) : dbl :=
  if numTimeSteps_ r <=? 1 then DNaN
  else ddiv (awakeTimeM2_ r) (dbl_of_Z ((numTimeSteps_ r - 1) mod UINT_MOD)).

(** [std::sqrt] of the C library, a parameter of the model. *)
Definition getAwakeTimeStdDev (sqrt : dbl -> dbl) (r : Rate) : dbl :=
  sqrt (getAwakeTimeVar r).

(** *** A run: [sleep()] called once per pair of clock readings. *)

Fixpoint run (r : Rate) (samples : list (timespec * timespec))
  : option (Rate * list (Rate * list diag * action)) :=
  match samples with
  | [] => Some (r, [])
  | (now1, now2) :: rest =>
      res <- sleep r now1 now2 ;;
      let '(r1, logs, act) := res in
      fin <- run r1 rest ;;
      let '(r', outs) := fin in
      Some (r', (r1, logs, act) :: outs)
  end.

(** Clock readings that never go backwards, starting no earlier than
    [last], all normalised. *)
Fixpoint clock_mono (last : timespec) (samples : list (timespec * timespec)) : Prop :=
  match samples with
  | [] => True
  | (now1, now2) :: rest =>
      ts_val last <= ts_val now1 <= ts_val now2 /\
      normalized now1 /\ normalized now2 /\ clock_mono now2 rest
  end.

(** The arguments the setters are meant to refuse. *)
Definition bad_time_step (v : dbl) : bool :=
  dlt v (DFin 0) || isnan v || isinf v.

Definition bad_max_time_step (v : dbl) : bool :=
  dlt v (DFin 0) || isnan v.

(** *** The statistics of [sleep()] on a sequence of awake times *)

(** The statistics after [reset()] and one update per sample. *)
Definition feed_stats (samples : list dbl) : Z * dbl * dbl :=
  fold_left (fun '(n, mean, m2) awake => update_stats n mean m2 awake)
    samples (0, DFin 0, DFin 0).

(** The direct computation the spec compares with (a definition that
    follows the spec's words): the arithmetic mean and the unbiased sample
    variance of the whole sample set. *)
Definition sum_Q (xs : list Q) : Q := fold_right Qplus 0%Q xs.

Definition mean_direct (xs : list Q) : Q :=
  (sum_Q xs / inject_Z (Z.of_nat (List.length xs)))%Q.

Definition var_direct (xs : list Q) : Q :=
  (sum_Q (map (fun x : Q => (x - mean_direct xs) * (x - mean_direct xs)) xs)
   / inject_Z (Z.of_nat (List.length xs) - 1))%Q.

(** The diagnostics the threshold check of [sleep()] emits for an awake
    time. *)
Definition threshold_diags (r : Rate) (awakeTime : dbl) : list diag :=
  let '(_, _, logs) := check_thresholds r awakeTime in logs.

(** The invariant of the single-pass update: [k] samples with sum [s1]
    and sum of squares [s2]. *)
Definition welford_inv (k : Z) (m M s1 s2 : Q) : Prop :=
  (inject_Z k * m == s1)%Q /\ (M == s2 - s1 * m)%Q.

(** ** Concrete runs *)

Definition example_t0 : timespec := mkTimespec 6 0.

(** A pacer right after [reset()]: 0.1 s time step, warning above 0.05 s,
    error above 1 s, rate enforced, clock id 1 ([CLOCK_MONOTONIC]). *)
Definition example_rate : Rate :=
  mkRate "worker" (DFin (1 # 10)) (DFin (1 # 20)) (DFin 1) true 1
    example_t0 example_t0 example_t0 0 0 0 (DFin 0) (DFin 0) (DFin 0).

(** A cycle with 0.08 s of work. *)
Definition example_now1 : timespec := mkTimespec 6 80000000.

(** A cycle with 0.3 s of work: behind schedule. *)
Definition example_late : timespec := mkTimespec 6 300000000.



(** [Rate(name, 0.0)] used as a probe: warning above 0.05 s, error above
    1 s, rate enforced, [CLOCK_MONOTONIC]; right after [reset()]. *)
Definition probe_rate : Rate :=
  mkRate "probe" (DFin 0) (DFin (1 # 20)) (DFin 1) true 1
    example_t0 example_t0 example_t0 0 0 0 (DFin 0) (DFin 0) (DFin 0).

(** A pacer right after [reset()] whose time step, 10^10 s, is valid but
    too long for the nanosecond arithmetic of [sleep()]. *)
Definition huge_step_rate : Rate :=
  mkRate "worker" (DFin 10000000000) (DFin 1) (DFin 2) true 1
    example_t0 example_t0 example_t0 0 0 0 (DFin 0) (DFin 0) (DFin 0).



(** ** Constructors *)

(** [CLOCK_MONOTONIC] of Linux's <time.h>. *)
Definition CLOCK_MONOTONIC : Z := 1.

(** [Rate::Rate(name, timeStep, maxTimeStepWarning, maxTimeStepError,
    enforceRate, clockId)], lines 60-73: [name_] and [clockId_] from the
    initialiser list, then the three setters, [setEnforceRate] and
    [reset()].  The members the initialiser list leaves out start from
    their default member initialisers, declared in Rate.hpp (not under
    src/): the argument [init] holds them.  [now] is the clock reading of
    [reset()]; the result carries the messages the setters log, in order. *)
Definition Rate_Rate (init : Rate) (name : string)
    (timeStep maxTimeStepWarning maxTimeStepError : dbl) (enforceRate : bool)
    (clockId : Z) (now : timespec) : Rate * list diag :=
  let r0 := mkRate name (timeStep_ init) (maxTimeStepWarning_ init)
              (maxTimeStepError_ init) (enforceRate_ init) clockId
              (sleepStartTime_ init) (sleepEndTime_ init) (stepTime_ init)
              (numTimeSteps_ init) (numWarnings_ init) (numErrors_ init)
              (awakeTime_ init) (awakeTimeMean_ init) (awakeTimeM2_ init) in
  let '(r1, l1) := setTimeStep r0 timeStep in
  let '(r2, l2) := setMaxTimeStepWarning r1 maxTimeStepWarning in
  let '(r3, l3) := setMaxTimeStepError r2 maxTimeStepError in
  let r4 := setEnforceRate r3 enforceRate in
  (reset r4 now, l1 ++ l2 ++ l3).

(** [Rate::Rate(name, timeStep)], lines 55-58: delegates with
    [timeStep], [10.0*timeStep], [true] and [CLOCK_MONOTONIC]. *)
Definition Rate_Rate_default (init : Rate) (name : string) (timeStep : dbl)
    (now : timespec) : Rate * list diag :=
  Rate_Rate init name timeStep timeStep (dmul (DFin 10) timeStep) true
    CLOCK_MONOTONIC now.

(** [Rate::Rate(Rate&& other)], lines 75-89: every member is taken from
    [other] except [sleepStartTime_] and [sleepEndTime_], which the
    initialiser list leaves out; they start from the values of Rate.hpp,
    the arguments [initStart] and [initEnd]. *)
Definition Rate_Rate_move (initStart initEnd : timespec) (other : Rate) : Rate :=
  mkRate (name_ other) (timeStep_ other) (maxTimeStepWarning_ other)
    (maxTimeStepError_ other) (enforceRate_ other) (clockId_ other)
    initStart initEnd (stepTime_ other) (numTimeSteps_ other)
    (numWarnings_ other) (numErrors_ other) (awakeTime_ other)
    (awakeTimeMean_ other) (awakeTimeM2_ other).

(** ** What a run records *)

(** The awake times the calls of a run measured, in order. *)
Definition awake_times (outs : list (Rate * list diag * action)) : list dbl :=
  map (fun '(ri, _, _) => awakeTime_ ri) outs.

(** The calls of a run whose awake time exceeded the error threshold, and
    those that exceeded the warning threshold only. *)
Definition count_errors (outs : list (Rate * list diag * action)) : nat :=
  List.length (filter (fun '(ri, _, _) =>
                         dgt (awakeTime_ ri) (maxTimeStepError_ ri)) outs).

Definition count_warnings (outs : list (Rate * list diag * action)) : nat :=
  List.length (filter (fun '(ri, _, _) =>
                         negb (dgt (awakeTime_ ri) (maxTimeStepError_ ri)) &&
                         dgt (awakeTime_ ri) (maxTimeStepWarning_ ri)) outs).

(** A clock that does not go backwards and under which [clock_nanosleep]
    does not return before its target: each call's readings are not before
    the end of the previous call, which is the second reading when the call
    did not wait and the target when it did. *)
Fixpoint clock_honours (last : timespec) (samples : list (timespec * timespec))
    (outs : list (Rate * list diag * action)) : Prop :=
  match samples, outs with
  | (now1, now2) :: rest, (_, _, act) :: outs' =>
      ts_val last <= ts_val now1 <= ts_val now2 /\
      clock_honours (match act with NoWait => now2 | NanosleepAbs _ T => T end)
        rest outs'
  | _, _ => True
  end.

(** ** Basic facts *)

Lemma to_long_some z z' : to_long z = Some z' -> z' = z.
Proof.
  unfold to_long; destruct (_ && _); congruence.
Qed.

Lemma to_long_in z : LONG_MIN <= z <= LONG_MAX -> to_long z = Some z.
Proof.
  intros H; unfold to_long.
  replace ((LONG_MIN <=? z) && (z <=? LONG_MAX)) with true; [reflexivity|].
  symmetry; apply andb_true_iff; split; apply Z.leb_le; lia.
Qed.

(** [GetDuration] is the exact difference of the two instants, in seconds. *)
Lemma GetDuration_val a b d :
  GetDuration a b = Some d ->
  exists q, d = DFin q /\ (q * inject_Z NSecPerSec_ == inject_Z (ts_val b - ts_val a))%Q.
Proof.
  unfold GetDuration.
  destruct (to_long (tv_sec b - tv_sec a)) as [ds|] eqn:E1; [|discriminate].
  destruct (to_long (tv_nsec b - tv_nsec a)) as [dn|] eqn:E2; [|discriminate].
  apply to_long_some in E1, E2; subst.
  intros H; injection H as <-.
  exists (Qred (inject_Z (tv_sec b - tv_sec a)
                + Qred (inject_Z (tv_nsec b - tv_nsec a) * (1 # 1000000000)))).
  split; [reflexivity|].
  rewrite !Qred_correct.
  unfold Qeq, ts_val, NSecPerSec_, dbl_of_Z; simpl.
  lia.
Qed.

Lemma dlt_fin_zero q : dlt (DFin q) (DFin 0) = true <-> (q < 0)%Q.
Proof.
  unfold dlt; simpl. rewrite Qlt_alt.
  destruct (q ?= 0)%Q; split; congruence.
Qed.

Lemma dgt_fin q q' : dgt (DFin q) (DFin q') = true <-> (q' < q)%Q.
Proof.
  unfold dgt; simpl. rewrite Qgt_alt.
  destruct (q ?= q')%Q; split; congruence.
Qed.

(** The behind-schedule test of [sleep()] compares the two instants. *)
Lemma GetDuration_behind a b d :
  GetDuration a b = Some d -> dlt d (DFin 0) = true <-> ts_val b < ts_val a.
Proof.
  intros H; apply GetDuration_val in H as [q [-> Hq]].
  rewrite dlt_fin_zero.
  assert (Hpos : (0 < inject_Z NSecPerSec_)%Q) by (unfold Qlt; simpl; lia).
  split; intros Hlt.
  - assert (Hneg : (inject_Z (ts_val b - ts_val a) < 0)%Q).
    { rewrite <- Hq. apply (Qmult_lt_r _ _ _ Hpos) in Hlt.
      rewrite Qmult_0_l in Hlt. exact Hlt. }
    change 0%Q with (inject_Z 0) in Hneg. rewrite <- Zlt_Qlt in Hneg. lia.
  - apply (Qmult_lt_r _ _ _ Hpos). rewrite Qmult_0_l, Hq.
    change 0%Q with (inject_Z 0). rewrite <- Zlt_Qlt. lia.
Qed.

(** The shape of a [sleep()] call that has no undefined behaviour. *)
Lemma sleep_inv r now1 now2 res :
  sleep r now1 now2 = Some res ->
  exists awakeTime n mean m2 w e logs step d,
    GetDuration (sleepEndTime_ r) now1 = Some awakeTime /\
    update_stats (numTimeSteps_ r) (awakeTimeMean_ r) (awakeTimeM2_ r) awakeTime = (n, mean, m2) /\
    check_thresholds r awakeTime = (w, e, logs) /\
    advance_step_time (stepTime_ r) (timeStep_ r) = Some step /\
    GetDuration now2 step = Some d /\
    let mk sleepEnd stp :=
      mkRate (name_ r) (timeStep_ r) (maxTimeStepWarning_ r) (maxTimeStepError_ r)
        (enforceRate_ r) (clockId_ r) now1 sleepEnd stp n w e awakeTime mean m2 in
    res = (if dlt d (DFin 0) then
             if negb (enforceRate_ r) then (mk now2 now2, logs, NoWait)
             else (mk now2 step, logs, NoWait)
           else (mk step step, logs, NanosleepAbs (clockId_ r) step)).
Proof.
  unfold sleep.
  destruct (GetDuration (sleepEndTime_ r) now1) as [aw|]; [|discriminate].
  destruct (update_stats _ _ _ aw) as [[n mean] m2] eqn:Hst.
  destruct (check_thresholds r aw) as [[w e] logs] eqn:Hth.
  destruct (advance_step_time _ _) as [step|]; [|discriminate].
  destruct (GetDuration now2 step) as [d|] eqn:Hd; [|discriminate].
  intros H. exists aw, n, mean, m2, w, e, logs, step, d.
  do 5 (split; [first [reflexivity | assumption]|]).
  destruct (dlt d (DFin 0)), (enforceRate_ r); simpl in *; congruence.
Qed.

(** The fields [sleep()] writes whatever the schedule does. *)
Lemma sleep_fields r now1 now2 r' logs act :
  sleep r now1 now2 = Some (r', logs, act) ->
  GetDuration (sleepEndTime_ r) now1 = Some (awakeTime_ r') /\
  update_stats (numTimeSteps_ r) (awakeTimeMean_ r) (awakeTimeM2_ r) (awakeTime_ r')
    = (numTimeSteps_ r', awakeTimeMean_ r', awakeTimeM2_ r') /\
  check_thresholds r (awakeTime_ r') = (numWarnings_ r', numErrors_ r', logs) /\
  sleepStartTime_ r' = now1 /\
  name_ r' = name_ r /\ timeStep_ r' = timeStep_ r /\
  maxTimeStepWarning_ r' = maxTimeStepWarning_ r /\
  maxTimeStepError_ r' = maxTimeStepError_ r /\
  enforceRate_ r' = enforceRate_ r /\ clockId_ r' = clockId_ r.
Proof.
  intros H; apply sleep_inv in H as (aw & n & mean & m2 & w & e & lg & step & d &
                                      Haw & Hst & Hth & Hstep & Hd & Hres).
  destruct (dlt d (DFin 0)), (enforceRate_ r) eqn:Ee; simpl in Hres;
    injection Hres as -> -> ->; simpl; repeat split; congruence.
Qed.

(** Line 168: [clock_gettime] then [GetDuration] never fail on the
    normalised readings of a 64-bit clock. *)
Lemma GetDuration_defined a b :
  LONG_MIN <= tv_sec b - tv_sec a <= LONG_MAX ->
  normalized a -> normalized b ->
  GetDuration a b = Some (dadd (dbl_of_Z (tv_sec b - tv_sec a))
                               (dmul (dbl_of_Z (tv_nsec b - tv_nsec a)) SecPerNSec_)).
Proof.
  intros Hs Ha Hb; unfold GetDuration, normalized, NSecPerSec_ in *.
  rewrite (to_long_in (tv_sec b - tv_sec a)) by lia.
  rewrite (to_long_in (tv_nsec b - tv_nsec a)) by (unfold LONG_MIN, LONG_MAX; lia).
  reflexivity.
Qed.

(** Truncation toward zero never drops below an integer lower bound. *)
Lemma Qtrunc_ge n x : (inject_Z n <= x)%Q -> n <= Qtrunc x.
Proof.
  destruct x as [a d]; unfold Qle, Qtrunc; simpl; intros H.
  rewrite <- (Z.quot_mul n (Zpos d)) by lia.
  apply Z.quot_le_mono; lia.
Qed.

Lemma TimeStepIsValid_fin v :
  TimeStepIsValid v = true -> exists q, v = DFin q /\ (0 <= q)%Q.
Proof.
  destruct v as [q| | |]; try discriminate.
  unfold TimeStepIsValid, dge; simpl; intros H.
  exists q; split; [reflexivity|].
  apply Qnot_lt_le; rewrite Qlt_alt; intros E; rewrite E in H; discriminate.
Qed.

(** Lines 193-195 keep the instant [tv_sec * 10^9 + tv_nsec] of the
    truncated sum: the carry moves whole seconds only. *)
Lemma advance_step_time_val st q st' :
  (0 <= q)%Q ->
  advance_step_time st (DFin q) = Some st' ->
  exists nsec,
    nsec = Qtrunc (Qred (inject_Z (tv_nsec st) + Qred (q * inject_Z NSecPerSec_))) /\
    tv_nsec st <= nsec /\
    ts_val st' = tv_sec st * NSecPerSec_ + nsec /\
    tv_nsec st' = Z.rem nsec NSecPerSec_.
Proof.
  intros Hq.
  cbv beta iota delta [advance_step_time long_of_dbl dbl_of_Z dadd dmul].
  destruct (to_long (Qtrunc _)) as [nsec|] eqn:E1; [|discriminate].
  destruct (to_long (tv_sec st + Z.quot nsec NSecPerSec_)) as [sec|] eqn:E2;
    [|discriminate].
  apply to_long_some in E1, E2; intros H; injection H as <-.
  exists nsec; split; [exact E1|]; split.
  - rewrite E1; apply Qtrunc_ge. rewrite !Qred_correct.
    rewrite <- (Qplus_0_r (inject_Z (tv_nsec st))) at 1.
    apply Qplus_le_compat; [apply Qle_refl|].
    apply Qmult_le_0_compat; [exact Hq | unfold Qle; simpl; lia].
  - unfold ts_val; simpl; split; [|reflexivity].
    pose proof (Z.quot_rem' nsec NSecPerSec_). unfold NSecPerSec_ in *. lia.
Qed.

Lemma Qtrunc_floor x : (0 <= x)%Q -> Qtrunc x = Qfloor x.
Proof.
  destruct x as [a d]; unfold Qle, Qtrunc, Qfloor; simpl; intros H.
  apply Z.quot_div_nonneg; lia.
Qed.

Lemma Qfloor_eq x y : (x == y)%Q -> Qfloor x = Qfloor y.
Proof.
  intros H; apply Z.le_antisymm; apply Qfloor_resp_le; rewrite H; apply Qle_refl.
Qed.

Lemma Qfloor_shift n y : Qfloor (inject_Z n + y) = n + Qfloor y.
Proof.
  pose proof (Qfloor_le y) as H1. pose proof (Qlt_floor y) as H2.
  pose proof (Qfloor_le (inject_Z n + y)) as H3.
  pose proof (Qlt_floor (inject_Z n + y)) as H4.
  rewrite inject_Z_plus in H2, H4.
  apply Z.le_antisymm.
  - assert (Hlt : (inject_Z (Qfloor (inject_Z n + y)) < inject_Z (n + Qfloor y + 1))%Q).
    { rewrite !inject_Z_plus. lra. }
    rewrite <- Zlt_Qlt in Hlt. lia.
  - rewrite <- (Qfloor_Z (n + Qfloor y)) at 1.
    apply Qfloor_resp_le. rewrite inject_Z_plus. lra.
Qed.

(** From a normalised target, one advance adds exactly the whole
    nanoseconds of [timeStep * 10^9] and stays normalised. *)
Lemma advance_step_time_floor st q st' :
  (0 <= q)%Q -> normalized st ->
  advance_step_time st (DFin q) = Some st' ->
  normalized st' /\
  ts_val st' = ts_val st + Qfloor (q * inject_Z NSecPerSec_).
Proof.
  intros Hq Hn H.
  destruct (advance_step_time_val _ _ _ Hq H) as (nsec & Ensec & Hle & Hval & Hns).
  unfold normalized in *; split.
  - rewrite Hns. apply Z.rem_bound_pos; unfold NSecPerSec_ in *; lia.
  - assert (Hx : (Qred (inject_Z (tv_nsec st) + Qred (q * inject_Z NSecPerSec_))
                  == inject_Z (tv_nsec st) + q * inject_Z NSecPerSec_)%Q)
      by (rewrite !Qred_correct; reflexivity).
    assert (Hy : (0 <= q * inject_Z NSecPerSec_)%Q)
      by (apply Qmult_le_0_compat; [exact Hq | unfold Qle; simpl; lia]).
    rewrite Qtrunc_floor in Ensec.
    + rewrite (Qfloor_eq _ _ Hx), Qfloor_shift in Ensec.
      rewrite Hval, Ensec. unfold ts_val. lia.
    + rewrite Hx. apply (Qle_trans _ (inject_Z 0)); [apply Qle_refl|].
      change 0%Q with (inject_Z 0) in Hy.
      rewrite <- (Qplus_0_r (inject_Z 0)).
      apply Qplus_le_compat; [rewrite <- Zle_Qle; lia | exact Hy].
Qed.


Lemma run_cons_inv r now1 now2 rest r' outs :
  run r ((now1, now2) :: rest) = Some (r', outs) ->
  exists r1 logs act outs',
    sleep r now1 now2 = Some (r1, logs, act) /\
    run r1 rest = Some (r', outs') /\
    outs = (r1, logs, act) :: outs'.
Proof.
  simpl.
  destruct (sleep r now1 now2) as [[[r1 logs] act]|] eqn:E1; [|discriminate].
  destruct (run r1 rest) as [[r'' outs']|] eqn:E2; [|discriminate].
  intros H; injection H as <- <-.
  exists r1, logs, act, outs'; auto.
Qed.

Lemma qsign_pos z : 0 < z -> qsign (inject_Z z) = Gt.
Proof.
  intros H; unfold qsign, Qcompare; simpl.
  rewrite Z.mul_1_r; apply Z.compare_gt_iff; lia.
Qed.

Lemma update_stats_fin k m M x s1 s2 :
  0 <= k -> k + 1 < UINT_MOD ->
  welford_inv k m M s1 s2 ->
  exists m' M',
    update_stats k (DFin m) (DFin M) (DFin x) = (k + 1, DFin m', DFin M') /\
    welford_inv (k + 1) m' M' (s1 + x) (s2 + x * x).
Proof.
  intros Hk Hlt [H1 H2].
  cbv beta iota zeta delta [update_stats uint_incr dsub dneg dadd ddiv dmul dbl_of_Z].
  rewrite Z.mod_small by (unfold UINT_MOD in *; lia).
  rewrite qsign_pos by lia.
  eexists; eexists; split; [reflexivity|].
  assert (Hnz : ~ (inject_Z (k + 1) == 0)%Q).
  { intros E. change 0%Q with (inject_Z 0) in E. rewrite inject_Z_injective in E. lia. }
  unfold welford_inv; rewrite !Qred_correct, !inject_Z_plus in *.
  split.
  - rewrite <- H1. field. exact Hnz.
  - rewrite H2, <- H1. field. exact Hnz.
Qed.

Lemma welford_inv_eq k m M s1 s2 s1' s2' :
  (s1 == s1')%Q -> (s2 == s2')%Q ->
  welford_inv k m M s1 s2 -> welford_inv k m M s1' s2'.
Proof.
  unfold welford_inv; intros E1 E2 [H1 H2]; split.
  - rewrite <- E1; exact H1.
  - rewrite <- E1, <- E2; exact H2.
Qed.

Lemma feed_fin xs : forall k m M s1 s2,
  0 <= k -> k + Z.of_nat (List.length xs) < UINT_MOD ->
  welford_inv k m M s1 s2 ->
  exists m' M',
    fold_left (fun '(n, mean, m2) awake => update_stats n mean m2 awake)
      (map DFin xs) (k, DFin m, DFin M)
    = (k + Z.of_nat (List.length xs), DFin m', DFin M') /\
    welford_inv (k + Z.of_nat (List.length xs)) m' M'
      (s1 + sum_Q xs)%Q (s2 + sum_Q (map (fun x : Q => x * x) xs))%Q.
Proof.
  induction xs as [|x xs IH]; intros k m M s1 s2 Hk Hlt Hinv.
  - exists m, M; simpl; rewrite Z.add_0_r; split; [reflexivity|].
    apply (welford_inv_eq _ _ _ s1 s2); [ring | ring | exact Hinv].
  - simpl List.length in Hlt; rewrite Nat2Z.inj_succ in Hlt.
    destruct (update_stats_fin k m M x s1 s2) as (m1 & M1 & Hst & Hinv1);
      [lia | lia | exact Hinv |].
    simpl map; simpl fold_left. rewrite Hst.
    destruct (IH (k + 1) m1 M1 (s1 + x)%Q (s2 + x * x)%Q) as (m' & M' & Hf & Hinv');
      [lia | lia | exact Hinv1 |].
    exists m', M'. simpl List.length; rewrite Nat2Z.inj_succ.
    replace (k + Z.succ (Z.of_nat (List.length xs)))
      with (k + 1 + Z.of_nat (List.length xs)) by lia.
    split; [exact Hf|].
    apply (welford_inv_eq _ _ _ _ _ _ _ (Qeq_refl _) (Qeq_refl _)) in Hinv'.
    revert Hinv'; apply welford_inv_eq; simpl; ring.
Qed.

Lemma sum_sq_dev mu xs :
  (sum_Q (map (fun x : Q => (x - mu) * (x - mu)) xs)
   == sum_Q (map (fun x : Q => x * x) xs) - 2 * mu * sum_Q xs
      + inject_Z (Z.of_nat (List.length xs)) * mu * mu)%Q.
Proof.
  induction xs as [|x xs IH].
  - simpl; ring.
  - change (List.length (x :: xs)) with (S (List.length xs)).
    rewrite Nat2Z.inj_succ, <- Z.add_1_r, inject_Z_plus.
    unfold sum_Q in *; cbn [map fold_right]. rewrite IH. ring.
Qed.

Lemma sum_Q_app xs ys : (sum_Q (xs ++ ys) == sum_Q xs + sum_Q ys)%Q.
Proof.
  induction xs as [|x xs IH]; simpl.
  - ring.
  - unfold sum_Q in *; simpl. rewrite IH. ring.
Qed.

Lemma sum_Q_repeat0 n : (sum_Q (repeat 0%Q n) == 0)%Q.
Proof.
  induction n as [|n IH]; [reflexivity|].
  unfold sum_Q in *; simpl. rewrite IH. reflexivity.
Qed.

Lemma update_stats_count n mean m2 aw :
  fst (fst (update_stats n mean m2 aw)) = uint_incr n.
Proof. reflexivity. Qed.

(** [sleep()] is defined as soon as its three [long] computations are. *)
Lemma sleep_some r now1 now2 aw step d :
  GetDuration (sleepEndTime_ r) now1 = Some aw ->
  advance_step_time (stepTime_ r) (timeStep_ r) = Some step ->
  GetDuration now2 step = Some d ->
  exists res, sleep r now1 now2 = Some res.
Proof.
  intros H1 H2 H3; unfold sleep; rewrite H1.
  destruct (update_stats _ _ _ aw) as [[n mean] m2].
  destruct (check_thresholds r aw) as [[w e] logs].
  rewrite H2, H3.
  destruct (dlt d (DFin 0)), (negb (enforceRate_ r)); eexists; reflexivity.
Qed.

Lemma sleep_count r now1 now2 r' logs act :
  sleep r now1 now2 = Some (r', logs, act) ->
  numTimeSteps_ r' = uint_incr (numTimeSteps_ r).
Proof.
  intros H; apply sleep_fields in H as (_ & Hst & _).
  pose proof (update_stats_count (numTimeSteps_ r) (awakeTimeMean_ r)
                (awakeTimeM2_ r) (awakeTime_ r')) as E.
  rewrite Hst in E; exact E.
Qed.

(** After N calls the counter has moved by N, modulo 2^32. *)
Lemma run_count samples : forall r r' outs,
  run r samples = Some (r', outs) ->
  numTimeSteps_ r' = (numTimeSteps_ r + Z.of_nat (List.length samples)) mod UINT_MOD \/
  (samples = [] /\ r' = r).
Proof.
  induction samples as [|[now1 now2] rest IH]; intros r r' outs H.
  - simpl in H; injection H as <- _; right; auto.
  - left. apply run_cons_inv in H as (r1 & logs & act & outs' & Hs & Hr & _).
    apply sleep_count in Hs.
    change (List.length ((now1, now2) :: rest)) with (S (List.length rest)).
    rewrite Nat2Z.inj_succ.
    destruct (IH r1 r' outs' Hr) as [E | [-> ->]].
    + rewrite E, Hs; unfold uint_incr.
      rewrite Zplus_mod_idemp_l. f_equal; lia.
    + rewrite Hs; unfold uint_incr; simpl; f_equal; lia.
Qed.

(** The statistics of a run are the single-pass update applied to the
    awake times the calls measured. *)
Lemma run_fold samples : forall r r' outs,
  run r samples = Some (r', outs) ->
  fold_left (fun '(n, mean, m2) awake => update_stats n mean m2 awake)
    (awake_times outs) (numTimeSteps_ r, awakeTimeMean_ r, awakeTimeM2_ r)
  = (numTimeSteps_ r', awakeTimeMean_ r', awakeTimeM2_ r').
Proof.
  induction samples as [|[now1 now2] rest IH]; intros r r' outs H.
  - simpl in H; injection H as <- <-; reflexivity.
  - apply run_cons_inv in H as (r1 & logs & act & outs' & Hs & Hr & ->).
    apply sleep_fields in Hs as (_ & Hst & _).
    cbn [awake_times map fold_left]. unfold awake_times in IH.
    rewrite Hst. exact (IH r1 r' outs' Hr).
Qed.

Lemma threshold_diags_config r r' aw :
  name_ r' = name_ r -> timeStep_ r' = timeStep_ r ->
  maxTimeStepWarning_ r' = maxTimeStepWarning_ r ->
  maxTimeStepError_ r' = maxTimeStepError_ r ->
  threshold_diags r' aw = threshold_diags r aw.
Proof.
  intros E1 E2 E3 E4; unfold threshold_diags, check_thresholds.
  rewrite E1, E2, E3, E4.
  destruct (dgt aw _); [reflexivity|]; destruct (dgt aw _); reflexivity.
Qed.

(** With a zero time step the target never moves past the last clock
    reading, so a requested wait is never for a future instant. *)
Lemma run_zero_step q samples : forall r last r' outs,
  timeStep_ r = DFin q -> (q == 0)%Q ->
  normalized (stepTime_ r) -> ts_val (stepTime_ r) <= ts_val last ->
  clock_mono last samples ->
  run r samples = Some (r', outs) ->
  Forall2 (fun (s : timespec * timespec) (o : Rate * list diag * action) =>
             let '(_, now2) := s in
             let '(ri, logs, act) := o in
             logs = threshold_diags ri (awakeTime_ ri) /\
             match act with
             | NoWait => True
             | NanosleepAbs _ T => ts_val T <= ts_val now2
             end) samples outs.
Proof.
  induction samples as [|[now1 now2] rest IH];
    intros r last r' outs Hts Hq Hn Hle Hm H.
  - simpl in H; injection H as _ <-; constructor.
  - apply run_cons_inv in H as (r1 & logs & act & outs' & Hs & Hr & ->).
    destruct Hm as (Hc & Hn1 & Hn2 & Hm).
    pose proof Hs as Hf.
    apply sleep_fields in Hf as (_ & _ & Hth & _ & Hnm & Hts1 & Hw & He & _).
    assert (Hlogs : logs = threshold_diags r1 (awakeTime_ r1)).
    { rewrite (threshold_diags_config r r1) by assumption.
      unfold threshold_diags; rewrite Hth; reflexivity. }
    apply sleep_inv in Hs as (aw & n & mean & m2 & w & e & lg & step & d &
                              Haw & Hst & Hth' & Hstep & Hd & Hres).
    rewrite Hts in Hstep.
    assert (Hq0 : (0 <= q)%Q) by (rewrite Hq; apply Qle_refl).
    destruct (advance_step_time_floor _ _ _ Hq0 Hn Hstep) as [Hsn Hsv].
    assert (Hz : Qfloor (q * inject_Z NSecPerSec_) = 0).
    { rewrite (Qfloor_eq _ 0%Q); [reflexivity|]. rewrite Hq; reflexivity. }
    rewrite Hz, Z.add_0_r in Hsv.
    pose proof (GetDuration_behind _ _ _ Hd) as Hb.
    assert (Hr1 : normalized (stepTime_ r1) /\ ts_val (stepTime_ r1) <= ts_val now2 /\
                  match act with
                  | NoWait => True
                  | NanosleepAbs _ T => ts_val T <= ts_val now2
                  end).
    { destruct (dlt d (DFin 0)) eqn:Ed;
        [ assert (ts_val step < ts_val now2) by (apply Hb; reflexivity)
        | assert (~ ts_val step < ts_val now2) by (intros X; apply Hb in X; discriminate) ];
        destruct (enforceRate_ r); simpl in Hres;
        injection Hres as -> _ ->; simpl; (split; [assumption|split]); try exact I; lia. }
    destruct Hr1 as (Hr1n & Hr1le & Hact).
    constructor.
    + split; assumption.
    + apply (IH r1 now2 r' outs'); try assumption. congruence.
Qed.

(** The [M2] term of Welford's update never decreases: the added term is
    [delta^2 * k / (k + 1)]. *)
Lemma update_stats_nonneg k m M x :
  0 <= k -> k + 1 < UINT_MOD -> (0 <= M)%Q ->
  exists m' M',
    update_stats k (DFin m) (DFin M) (DFin x) = (k + 1, DFin m', DFin M') /\
    (0 <= M')%Q.
Proof.
  intros Hk Hlt HM.
  cbv beta iota zeta delta [update_stats uint_incr dsub dneg dadd ddiv dmul dbl_of_Z].
  rewrite Z.mod_small by (unfold UINT_MOD in *; lia).
  rewrite qsign_pos by lia.
  eexists; eexists; split; [reflexivity|].
  assert (Hnz : ~ (inject_Z (k + 1) == 0)%Q).
  { intros E. change 0%Q with (inject_Z 0) in E. rewrite inject_Z_injective in E. lia. }
  rewrite !Qred_correct.
  set (y := (x + - m)%Q).
  assert (E : (M + y * (x + - (m + y / inject_Z (k + 1)))
               == M + y * y * inject_Z k * / inject_Z (k + 1))%Q).
  { unfold y. rewrite inject_Z_plus. field. intros C; apply Hnz; rewrite inject_Z_plus; exact C. }
  rewrite E.
  assert (Hy : (0 <= y * y)%Q) by nra.
  assert (Hkq : (0 <= inject_Z k)%Q) by (change 0%Q with (inject_Z 0); rewrite <- Zle_Qle; lia).
  assert (Hc : (0 <= / inject_Z (k + 1))%Q).
  { apply Qlt_le_weak, Qinv_lt_0_compat.
    change 0%Q with (inject_Z 0); rewrite <- Zlt_Qlt; lia. }
  assert ((0 <= y * y * inject_Z k * / inject_Z (k + 1))%Q)
    by (apply Qmult_le_0_compat; [apply Qmult_le_0_compat|]; assumption).
  lra.
Qed.

(** Along a run shorter than the counter's range the counter counts the
    calls, the mean and [M2] stay finite and [M2] stays non-negative. *)
Lemma run_stats samples : forall r r' outs,
  0 <= numTimeSteps_ r ->
  numTimeSteps_ r + Z.of_nat (List.length samples) < UINT_MOD ->
  (exists m, awakeTimeMean_ r = DFin m) ->
  (exists M, awakeTimeM2_ r = DFin M /\ (0 <= M)%Q) ->
  run r samples = Some (r', outs) ->
  numTimeSteps_ r' = numTimeSteps_ r + Z.of_nat (List.length samples) /\
  (exists m, awakeTimeMean_ r' = DFin m) /\
  (exists M, awakeTimeM2_ r' = DFin M /\ (0 <= M)%Q) /\
  (samples <> [] -> exists a, awakeTime_ r' = DFin a).
Proof.
  induction samples as [|[now1 now2] rest IH];
    intros r r' outs Hk Hlt [m Hm] [M [HM HM0]] H.
  - simpl in H; injection H as <- _.
    split; [simpl; lia|]. split; [exists m; exact Hm|].
    split; [exists M; auto|]. intros C; congruence.
  - apply run_cons_inv in H as (r1 & logs & act & outs' & Hs & Hr & _).
    change (List.length ((now1, now2) :: rest)) with (S (List.length rest)) in *.
    rewrite Nat2Z.inj_succ in *.
    apply sleep_fields in Hs as (Haw & Hst & _).
    destruct (GetDuration_val _ _ _ Haw) as (a & Ea & _).
    rewrite Hm, HM, Ea in Hst.
    destruct (update_stats_nonneg (numTimeSteps_ r) m M a) as (m' & M' & Hu & HM');
      [lia | lia | assumption |].
    rewrite Hu in Hst. injection Hst as Hn1 Hm1 HM1.
    destruct (IH r1 r' outs') as (Hc & Hmean & HM2 & Ha);
      [lia | lia | exists m'; auto | exists M'; auto | assumption |].
    split; [lia|]. split; [assumption|]. split; [assumption|].
    intros _. destruct rest as [|p rest'].
    + simpl in Hr; injection Hr as <- _. exists a; exact Ea.
    + apply Ha; discriminate.
Qed.

(** The first call after [reset()] measures from the reset instant. *)
Lemma first_awake_nonneg r t0 now1 now2 r' outs :
  ts_val t0 <= ts_val now1 ->
  run (reset r t0) [(now1, now2)] = Some (r', outs) ->
  exists a, awakeTime_ r' = DFin a /\ (0 <= a)%Q.
Proof.
  intros Hle H.
  apply run_cons_inv in H as (r1 & logs & act & outs' & Hs & Hr & _).
  simpl in Hr; injection Hr as <- _.
  apply sleep_fields in Hs as (Haw & _).
  destruct (GetDuration_val _ _ _ Haw) as (a & Ea & Hv).
  exists a; split; [exact Ea|].
  simpl sleepEndTime_ in Hv.
  assert (Hz : (0 <= inject_Z (ts_val now1 - ts_val t0))%Q)
    by (change 0%Q with (inject_Z 0); rewrite <- Zle_Qle; lia).
  rewrite <- Hv in Hz. unfold NSecPerSec_ in Hz. change (inject_Z 1000000000) with (1000000000 # 1)%Q in Hz. lra.
Qed.

Lemma clock_mono_const t n : normalized t -> clock_mono t (repeat (t, t) n).
Proof.
  intros Ht; induction n as [|n IH]; simpl; auto.
  split; [lia|]; split; [exact Ht|]; split; [exact Ht|]; exact IH.
Qed.

(** A pacer with a zero time step whose target and last reading are the
    clock value, called with the clock standing still, stays so. *)
Lemma run_standing_clock n : forall r,
  timeStep_ r = DFin 0 -> stepTime_ r = example_t0 ->
  sleepEndTime_ r = example_t0 ->
  exists r' outs, run r (repeat (example_t0, example_t0) n) = Some (r', outs).
Proof.
  assert (Hg : GetDuration example_t0 example_t0 = Some (DFin 0)) by reflexivity.
  assert (Ha : advance_step_time example_t0 (DFin 0) = Some example_t0) by reflexivity.
  induction n as [|n IH]; intros r Hts Hst Hse.
  - exists r, []; reflexivity.
  - destruct (sleep_some r example_t0 example_t0 (DFin 0) example_t0 (DFin 0))
      as [[[r1 logs] act] Hs]; [rewrite Hse; exact Hg | rewrite Hst, Hts; exact Ha | exact Hg |].
    pose proof Hs as Hs0.
    pose proof Hs as Hf. apply sleep_fields in Hf as (_ & _ & _ & _ & _ & Hts1 & _).
    apply sleep_inv in Hs as (aw & k & mean & m2 & w & e & lg & step & d &
                              _ & _ & _ & Hstep & Hd & Hres).
    rewrite Hst, Hts, Ha in Hstep; injection Hstep as <-.
    rewrite Hg in Hd; injection Hd as <-.
    simpl in Hres. injection Hres as Hr1 _ _.
    destruct (IH r1) as (r' & outs & Hrun); [congruence | rewrite Hr1; reflexivity
                                           | rewrite Hr1; reflexivity |].
    exists r', ((r1, logs, act) :: outs).
    simpl. rewrite Hs0. rewrite Hrun. reflexivity.
Qed.

(** ** Claims *)

(** C2: the schedule policy of [sleep()].  After [stepTime_] is advanced by
    [timeStep_] the second clock reading becomes [sleepEndTime_] and is
    compared with it.  Behind schedule with [enforceRate_] false: the
    target becomes the reading and the call returns; behind with
    [enforceRate_] true: the call returns and the advanced target is kept;
    not behind: [sleepEndTime_] is set to the target and the call ends in
    an absolute [clock_nanosleep] until the target on [clockId_]. *)
Theorem sleep_schedule_policy r now1 now2 r' logs act :
  sleep r now1 now2 = Some (r', logs, act) ->
  exists step,
    advance_step_time (stepTime_ r) (timeStep_ r) = Some step /\
    (ts_val step < ts_val now2 -> enforceRate_ r = false ->
       stepTime_ r' = now2 /\ sleepEndTime_ r' = now2 /\ act = NoWait) /\
    (ts_val step < ts_val now2 -> enforceRate_ r = true ->
       stepTime_ r' = step /\ sleepEndTime_ r' = now2 /\ act = NoWait) /\
    (ts_val now2 <= ts_val step ->
       stepTime_ r' = step /\ sleepEndTime_ r' = step /\
       act = NanosleepAbs (clockId_ r) step).
Proof.
  intros H; apply sleep_inv in H as (aw & n & mean & m2 & w & e & lg & step & d &
                                      Haw & Hst & Hth & Hstep & Hd & Hres).
  exists step; split; [exact Hstep|].
  pose proof (GetDuration_behind _ _ _ Hd) as Hb.
  destruct (dlt d (DFin 0)) eqn:Ed;
    [ assert (ts_val step < ts_val now2) by (apply Hb; reflexivity)
    | assert (~ ts_val step < ts_val now2) by (intros X; apply Hb in X; discriminate) ];
    destruct (enforceRate_ r) eqn:Ee; simpl in Hres;
    injection Hres as -> -> ->; simpl;
    repeat split; intros; first [reflexivity | congruence | lia].
Qed.

(** C3: the threshold check of [sleep()] is exclusive and the error
    threshold takes priority.  [awakeTime_] of the new state is the measured
    awake time; a counter "incremented by one" is the [unsigned int]
    increment [uint_incr]. *)
Theorem sleep_threshold_exclusive r now1 now2 r' logs act :
  sleep r now1 now2 = Some (r', logs, act) ->
  GetDuration (sleepEndTime_ r) now1 = Some (awakeTime_ r') /\
  (dgt (awakeTime_ r') (maxTimeStepError_ r) = true ->
     numErrors_ r' = uint_incr (numErrors_ r) /\ numWarnings_ r' = numWarnings_ r /\
     exists vs, logs = [MeloError (name_ r) vs]) /\
  (dgt (awakeTime_ r') (maxTimeStepError_ r) = false ->
   dgt (awakeTime_ r') (maxTimeStepWarning_ r) = true ->
     numWarnings_ r' = uint_incr (numWarnings_ r) /\ numErrors_ r' = numErrors_ r /\
     exists vs, logs = [MeloWarn (name_ r) vs]) /\
  (dgt (awakeTime_ r') (maxTimeStepError_ r) = false ->
   dgt (awakeTime_ r') (maxTimeStepWarning_ r) = false ->
     numWarnings_ r' = numWarnings_ r /\ numErrors_ r' = numErrors_ r /\ logs = []).
Proof.
  intros H; apply sleep_fields in H as (Haw & _ & Hth & _).
  split; [exact Haw|].
  unfold check_thresholds in Hth.
  repeat split; intros;
    repeat match goal with
           | E : dgt _ _ = _ |- _ => rewrite E in Hth
           end;
    injection Hth as Hw He Hl;
    rewrite <- ?Hw, <- ?He, <- ?Hl; eauto.
Qed.

Lemma TimeStepIsValid_bad v : TimeStepIsValid v = negb (bad_time_step v).
Proof.
  destruct v as [q| | |]; try reflexivity.
  unfold TimeStepIsValid, bad_time_step, dge, dlt; simpl.
  destruct (q ?= 0)%Q; reflexivity.
Qed.

Lemma MaxTimeStepIsValid_bad v : MaxTimeStepIsValid v = negb (bad_max_time_step v).
Proof.
  destruct v as [q| | |]; try reflexivity.
  unfold MaxTimeStepIsValid, bad_max_time_step, dge, dlt; simpl.
  destruct (q ?= 0)%Q; reflexivity.
Qed.

(** C4 (as the code does it): [setTimeStep] refuses a negative, NaN or
    infinite value; [setMaxTimeStepWarning] and [setMaxTimeStepError]
    refuse a negative or NaN value (so also minus infinity).  A refused
    value leaves the pacer as it was and logs an error carrying the value;
    an accepted one is stored and logs nothing.  The threshold setters
    accept plus infinity.  No setter has another outcome (no exception). *)
Theorem setters_reject_invalid r v :
  (bad_time_step v = true -> setTimeStep r v = (r, [MeloError (name_ r) [v]])) /\
  (bad_time_step v = false ->
     timeStep_ (fst (setTimeStep r v)) = v /\ snd (setTimeStep r v) = []) /\
  (bad_max_time_step v = true ->
     setMaxTimeStepWarning r v = (r, [MeloError (name_ r) [v]]) /\
     setMaxTimeStepError r v = (r, [MeloError (name_ r) [v]])) /\
  (bad_max_time_step v = false ->
     maxTimeStepWarning_ (fst (setMaxTimeStepWarning r v)) = v /\
     snd (setMaxTimeStepWarning r v) = [] /\
     maxTimeStepError_ (fst (setMaxTimeStepError r v)) = v /\
     snd (setMaxTimeStepError r v) = []) /\
  maxTimeStepWarning_ (fst (setMaxTimeStepWarning r DPInf)) = DPInf /\
  maxTimeStepError_ (fst (setMaxTimeStepError r DPInf)) = DPInf.
Proof.
  unfold setTimeStep, setMaxTimeStepWarning, setMaxTimeStepError.
  rewrite TimeStepIsValid_bad, MaxTimeStepIsValid_bad.
  repeat split; intros;
    repeat match goal with
           | E : bad_time_step v = _ |- _ => rewrite E; clear E
           | E : bad_max_time_step v = _ |- _ => rewrite E; clear E
           end; reflexivity.
Qed.

(** C9 (as the code does it): [sleep()] logs one error when the awake
    time of the cycle exceeds [maxTimeStepError_], else one warning when it
    exceeds [maxTimeStepWarning_], else nothing; either message carries the
    pacer name, the awake time and the configured [timeStep_] (the value
    the message prints after the [>] sign), not the threshold that was
    exceeded; [sleep()] has no outcome other than its result (it does not
    abort). *)
Theorem sleep_diag_content r now1 now2 r' logs act :
  sleep r now1 now2 = Some (r', logs, act) ->
  logs = if dgt (awakeTime_ r') (maxTimeStepError_ r)
         then [MeloError (name_ r) [awakeTime_ r'; timeStep_ r]]
         else if dgt (awakeTime_ r') (maxTimeStepWarning_ r)
         then [MeloWarn (name_ r) [awakeTime_ r'; timeStep_ r]]
         else [].
Proof.
  intros H; apply sleep_fields in H as (_ & _ & Hth & _).
  unfold check_thresholds in Hth.
  destruct (dgt _ (maxTimeStepError_ r)); [|destruct (dgt _ (maxTimeStepWarning_ r))];
    injection Hth as _ _ <-; reflexivity.
Qed.

Lemma sleep_schedule_policy_witness :
  exists r' logs act,
    sleep example_rate example_now1 example_now1 = Some (r', logs, act) /\
    exists step,
      advance_step_time (stepTime_ example_rate) (timeStep_ example_rate) = Some step /\
      (ts_val step < ts_val example_now1 -> enforceRate_ example_rate = false ->
         stepTime_ r' = example_now1 /\ sleepEndTime_ r' = example_now1 /\ act = NoWait) /\
      (ts_val step < ts_val example_now1 -> enforceRate_ example_rate = true ->
         stepTime_ r' = step /\ sleepEndTime_ r' = example_now1 /\ act = NoWait) /\
      (ts_val example_now1 <= ts_val step ->
         stepTime_ r' = step /\ sleepEndTime_ r' = step /\
         act = NanosleepAbs (clockId_ example_rate) step).
Proof.
  destruct (sleep example_rate example_now1 example_now1) as [[[r' logs] act]|] eqn:E;
    [|vm_compute in E; discriminate].
  exists r', logs, act; split; [reflexivity|].
  apply (sleep_schedule_policy example_rate example_now1 example_now1 r' logs act).
  exact E.
Defined.

Lemma sleep_threshold_exclusive_witness :
  exists r' logs act,
    sleep example_rate example_now1 example_late = Some (r', logs, act) /\
    GetDuration (sleepEndTime_ example_rate) example_now1 = Some (awakeTime_ r') /\
    (dgt (awakeTime_ r') (maxTimeStepError_ example_rate) = true ->
       numErrors_ r' = uint_incr (numErrors_ example_rate) /\
       numWarnings_ r' = numWarnings_ example_rate /\
       exists vs, logs = [MeloError (name_ example_rate) vs]) /\
    (dgt (awakeTime_ r') (maxTimeStepError_ example_rate) = false ->
     dgt (awakeTime_ r') (maxTimeStepWarning_ example_rate) = true ->
       numWarnings_ r' = uint_incr (numWarnings_ example_rate) /\
       numErrors_ r' = numErrors_ example_rate /\
       exists vs, logs = [MeloWarn (name_ example_rate) vs]) /\
    (dgt (awakeTime_ r') (maxTimeStepError_ example_rate) = false ->
     dgt (awakeTime_ r') (maxTimeStepWarning_ example_rate) = false ->
       numWarnings_ r' = numWarnings_ example_rate /\
       numErrors_ r' = numErrors_ example_rate /\ logs = []).
Proof.
  destruct (sleep example_rate example_now1 example_late) as [[[r' logs] act]|] eqn:E;
    [|vm_compute in E; discriminate].
  exists r', logs, act; split; [reflexivity|].
  apply (sleep_threshold_exclusive example_rate example_now1 example_late r' logs act).
  exact E.
Defined.

(** C4, as stated, fails: an infinite warning threshold is stored. *)
Lemma setMaxTimeStepWarning_infinity_stored :
  maxTimeStepWarning_ (fst (setMaxTimeStepWarning example_rate DPInf)) = DPInf /\
  maxTimeStepWarning_ example_rate <> DPInf /\
  snd (setMaxTimeStepWarning example_rate DPInf) = [].
Proof.
  split; [reflexivity|]. split; [discriminate|reflexivity].
Qed.

(** C9 fails in the code: a 0.08 s cycle exceeds the 0.05 s warning
    threshold of [example_rate] (time step 0.1 s) and [sleep()] logs a
    warning whose values are 0.08 and 0.1, i.e. the message reads
    (0.08 s > 0.1 s): the comparison it prints is false, and the
    threshold 0.05 it was checked against is not in it. *)
Lemma sleep_warning_prints_false_comparison :
  match sleep example_rate example_now1 example_now1 with
  | Some (r', [MeloWarn nm [aw; shown]], _) =>
      nm = name_ example_rate /\
      aw = awakeTime_ r' /\ aw = DFin (2 # 25) /\
      shown = timeStep_ example_rate /\ shown = DFin (1 # 10) /\
      dgt aw (maxTimeStepWarning_ example_rate) = true /\
      dgt aw shown = false /\
      dcmp shown (maxTimeStepWarning_ example_rate) <> Some Eq
  | _ => False
  end.
Proof.
  vm_compute. repeat split; try reflexivity. intros E; discriminate E.
Qed.

(** C7: with a valid time step, [sleep()] never moves [stepTime_] back in
    time; the setters leave it alone; only [reset()] re-anchors it, to the
    clock reading. *)
Theorem stepTime_never_rewound r now1 now2 r' logs act :
  TimeStepIsValid (timeStep_ r) = true ->
  sleep r now1 now2 = Some (r', logs, act) ->
  ts_val (stepTime_ r) <= ts_val (stepTime_ r') /\
  (forall v, stepTime_ (fst (setTimeStep r v)) = stepTime_ r) /\
  (forall v, stepTime_ (fst (setMaxTimeStepWarning r v)) = stepTime_ r) /\
  (forall v, stepTime_ (fst (setMaxTimeStepError r v)) = stepTime_ r) /\
  (forall b, stepTime_ (setEnforceRate r b) = stepTime_ r) /\
  (forall now, stepTime_ (reset r now) = now).
Proof.
  intros Hv H.
  split.
  - apply TimeStepIsValid_fin in Hv as [q [Eq Hq]].
    apply sleep_inv in H as (aw & n & mean & m2 & w & e & lg & step & d &
                             Haw & Hst & Hth & Hstep & Hd & Hres).
    rewrite Eq in Hstep.
    destruct (advance_step_time_val _ _ _ Hq Hstep) as (nsec & _ & Hle & Hval & _).
    assert (ts_val (stepTime_ r) <= ts_val step)
      by (unfold ts_val in *; lia).
    pose proof (GetDuration_behind _ _ _ Hd) as Hb.
    destruct (dlt d (DFin 0)) eqn:Ed;
      [ assert (ts_val step < ts_val now2) by (apply Hb; reflexivity) | ];
      destruct (enforceRate_ r); simpl in Hres;
      injection Hres as -> _ _; simpl; lia.
  - repeat split; intros;
      unfold setTimeStep, setMaxTimeStepWarning, setMaxTimeStepError;
      repeat (destruct (negb _)); reflexivity.
Qed.

(** C10: [stepTime_] stays normalised.  [reset()] takes the clock
    reading; [sleep()], with a valid time step, a normalised [stepTime_]
    and a normalised second reading, leaves it normalised. *)
Theorem stepTime_normalized r now now1 now2 r' logs act :
  (normalized now -> normalized (stepTime_ (reset r now))) /\
  (TimeStepIsValid (timeStep_ r) = true ->
   normalized (stepTime_ r) -> normalized now2 ->
   sleep r now1 now2 = Some (r', logs, act) ->
   normalized (stepTime_ r')).
Proof.
  split; [intros Hn; exact Hn|].
  intros Hv Hs Hn2 H.
  apply TimeStepIsValid_fin in Hv as [q [Eq Hq]].
  apply sleep_inv in H as (aw & n & mean & m2 & w & e & lg & step & d &
                           Haw & Hst & Hth & Hstep & Hd & Hres).
  rewrite Eq in Hstep.
  destruct (advance_step_time_val _ _ _ Hq Hstep) as (nsec & _ & Hle & _ & Hns).
  assert (normalized step).
  { unfold normalized in *; rewrite Hns.
    apply Z.rem_bound_pos; unfold NSecPerSec_ in *; lia. }
  destruct (dlt d (DFin 0)), (enforceRate_ r); simpl in Hres;
    injection Hres as -> _ _; simpl; assumption.
Qed.




(** C5 (as the code does it): for every non-empty sequence of fewer than
    2^32 awake times fed through the update of [sleep()] after [reset()],
    [numTimeSteps_] is the number of samples, [awakeTimeMean_] is their
    arithmetic mean and, from two samples on,
    [awakeTimeM2_ / (numTimeSteps_ - 1)] is their unbiased sample variance
    (in exact arithmetic: rounding is not modelled). *)
Theorem welford_matches_direct xs :
  (0 < List.length xs)%nat -> Z.of_nat (List.length xs) < UINT_MOD ->
  exists m M,
    feed_stats (map DFin xs) = (Z.of_nat (List.length xs), DFin m, DFin M) /\
    (m == mean_direct xs)%Q /\
    ((2 <= List.length xs)%nat ->
     exists v, ddiv (DFin M) (dbl_of_Z (Z.of_nat (List.length xs) - 1)) = DFin v /\
               (v == var_direct xs)%Q).
Proof.
  intros Hpos Hlt.
  destruct (feed_fin xs 0 0 0 0 0) as (m & M & Hf & [H1 H2]);
    [lia | lia | unfold welford_inv; split; ring |].
  rewrite Z.add_0_l in Hf, H1.
  exists m, M; split; [exact Hf|].
  set (n := Z.of_nat (List.length xs)) in *.
  assert (Hn : ~ (inject_Z n == 0)%Q).
  { intros E. change 0%Q with (inject_Z 0) in E. rewrite inject_Z_injective in E. lia. }
  assert (Hm : (m == mean_direct xs)%Q).
  { unfold mean_direct; fold n. rewrite Qplus_0_l in H1. rewrite <- H1. field. exact Hn. }
  split; [exact Hm|].
  intros H2le.
  unfold ddiv, dbl_of_Z. rewrite qsign_pos by lia.
  eexists; split; [reflexivity|].
  assert (Hn1 : ~ (inject_Z (n - 1) == 0)%Q).
  { intros E. change 0%Q with (inject_Z 0) in E. rewrite inject_Z_injective in E. lia. }
  rewrite Qred_correct.
  unfold var_direct; fold n.
  rewrite sum_sq_dev; fold n.
  rewrite <- Hm, H2, !Qplus_0_l.
  rewrite Qplus_0_l in H1. rewrite <- H1.
  field. exact Hn1.
Qed.

(** C5, as stated, fails for long sequences: after 2^32 - 1 samples 0 and
    one sample 1, the [unsigned int] counter wraps to 0, the update divides
    by zero and [awakeTimeMean_] is plus infinity, while the mean of the
    samples is 2^-32. *)
Lemma welford_counter_wraps :
  (exists M, feed_stats (map DFin (repeat 0%Q (Z.to_nat (UINT_MOD - 1)) ++ [1%Q]))
             = (0, DPInf, M)) /\
  (mean_direct (repeat 0%Q (Z.to_nat (UINT_MOD - 1)) ++ [1%Q]) == 1 # 4294967296)%Q.
Proof.
  assert (HN : Z.of_nat (Z.to_nat (UINT_MOD - 1)) = UINT_MOD - 1)
    by (apply Z2Nat.id; unfold UINT_MOD; lia).
  split.
  - unfold feed_stats. rewrite map_app, fold_left_app.
    destruct (feed_fin (repeat 0%Q (Z.to_nat (UINT_MOD - 1))) 0 0 0 0 0)
      as (m & M & Hf & [H1 _]);
      [lia | rewrite repeat_length, HN; unfold UINT_MOD; lia | split; ring |].
    rewrite Hf. rewrite repeat_length, HN, Z.add_0_l in *.
    rewrite sum_Q_repeat0, Qplus_0_l in H1.
    assert (Hm : (m == 0)%Q).
    { apply Qmult_integral in H1 as [E|E]; [|exact E].
      change 0%Q with (inject_Z 0) in E. rewrite inject_Z_injective in E.
      unfold UINT_MOD in E; lia. }
    cbv beta iota zeta delta [fold_left map update_stats uint_incr dsub dneg dadd ddiv dmul dbl_of_Z].
    replace ((UINT_MOD - 1 + 1) mod UINT_MOD) with 0 by reflexivity.
    replace (qsign (inject_Z 0)) with Eq by reflexivity.
    replace (qsign (Qred (1 + - m))) with Gt.
    + eexists; reflexivity.
    + unfold qsign. rewrite Qred_correct, Hm. reflexivity.
  - unfold mean_direct. rewrite sum_Q_app, sum_Q_repeat0, length_app, repeat_length.
    simpl List.length. rewrite Nat2Z.inj_add, HN.
    reflexivity.
Qed.

(** C8: with a time step of zero, after [reset()] at [t0] and N calls of
    [sleep()] on a clock that does not go backwards, every call evaluates
    the thresholds on its awake time, a requested wait is always for an
    instant not after the second clock reading of the same call (so
    [clock_nanosleep] with [TIMER_ABSTIME] returns at once), the
    statistics counter has counted every call, and the counter, the mean
    and M2 are the single-pass update applied once per call to the awake
    times the calls measured, in order. *)
Theorem zero_time_step_never_blocks r t0 q samples r' outs :
  timeStep_ r = DFin q -> (q == 0)%Q ->
  normalized t0 -> clock_mono t0 samples ->
  run (reset r t0) samples = Some (r', outs) ->
  Forall2 (fun (s : timespec * timespec) (o : Rate * list diag * action) =>
             let '(_, now2) := s in
             let '(ri, logs, act) := o in
             logs = threshold_diags ri (awakeTime_ ri) /\
             match act with
             | NoWait => True
             | NanosleepAbs _ T => ts_val T <= ts_val now2
             end) samples outs /\
  numTimeSteps_ r' = Z.of_nat (List.length samples) mod UINT_MOD /\
  (numTimeSteps_ r', awakeTimeMean_ r', awakeTimeM2_ r') = feed_stats (awake_times outs).
Proof.
  intros Hts Hq Hn Hm H. split; [|split].
  - apply (run_zero_step q samples (reset r t0) t0 r' outs); try assumption.
    apply Z.le_refl.
  - destruct (run_count _ _ _ _ H) as [E | [-> ->]]; [exact E | reflexivity].
  - rewrite <- (run_fold _ _ _ _ H). reflexivity.
Qed.

(** C6 (as the code does it): after [reset()] at [t0] and N calls of
    [sleep()], N below the range 2^32 of the [unsigned int] counter, on a
    clock that does not go backwards: [getAwakeTime()] and
    [getAwakeTimeMean()] are NaN exactly when N = 0; after one call the
    awake time is finite and non-negative; [getAwakeTimeVar()] is NaN
    exactly when N <= 1 and otherwise [M2 / (N - 1)], finite and
    non-negative; [getAwakeTimeStdDev()] is the square root of
    [getAwakeTimeVar()].  The accessors are [const] members, here functions
    of the state. *)
Theorem awake_accessors_after_reset r t0 samples r' outs :
  clock_mono t0 samples ->
  Z.of_nat (List.length samples) < UINT_MOD ->
  run (reset r t0) samples = Some (r', outs) ->
  (getAwakeTime r' = DNaN <-> samples = []) /\
  (getAwakeTimeMean r' = DNaN <-> samples = []) /\
  (List.length samples = 1%nat ->
   exists a, getAwakeTime r' = DFin a /\ (0 <= a)%Q) /\
  (getAwakeTimeVar r' = DNaN <-> (List.length samples <= 1)%nat) /\
  ((2 <= List.length samples)%nat ->
   getAwakeTimeVar r' = ddiv (awakeTimeM2_ r') (dbl_of_Z (numTimeSteps_ r' - 1)) /\
   exists v, getAwakeTimeVar r' = DFin v /\ (0 <= v)%Q) /\
  (forall sqrt, getAwakeTimeStdDev sqrt r' = sqrt (getAwakeTimeVar r')).
Proof.
  intros Hm Hlt H.
  destruct (run_stats samples (reset r t0) r' outs) as (Hc & [m Hmean] & [M [HM HM0]] & Ha);
    [simpl; lia | simpl; lia | exists 0%Q; reflexivity
    | exists 0%Q; split; [reflexivity | apply Qle_refl] | exact H |].
  simpl numTimeSteps_ in Hc; rewrite Z.add_0_l in Hc.
  assert (Hnil : numTimeSteps_ r' = 0 <-> samples = []).
  { rewrite Hc; split; [|intros ->; reflexivity].
    destruct samples; [reflexivity|]. simpl; lia. }
  assert (Hfin : samples <> [] -> getAwakeTime r' = awakeTime_ r').
  { intros Hne; unfold getAwakeTime.
    destruct (numTimeSteps_ r' =? 0) eqn:E; [|reflexivity].
    apply Z.eqb_eq, Hnil in E; contradiction. }
  split; [|split; [|split; [|split; [|split]]]].
  - split.
    + intros E. destruct samples as [|p rest]; [reflexivity|].
      destruct Ha as [a Ea]; [discriminate|].
      rewrite Hfin, Ea in E by discriminate; discriminate.
    + intros Hs; apply Hnil in Hs. unfold getAwakeTime; rewrite Hs; reflexivity.
  - split.
    + unfold getAwakeTimeMean. destruct (numTimeSteps_ r' =? 0) eqn:E.
      * intros _; apply Hnil, Z.eqb_eq, E.
      * rewrite Hmean; discriminate.
    + intros Hs; apply Hnil in Hs. unfold getAwakeTimeMean; rewrite Hs; reflexivity.
  - intros H1.
    destruct samples as [|[now1 now2] [|p rest]]; try (simpl in H1; lia).
    destruct Hm as ([Hle _] & _).
    destruct (first_awake_nonneg r t0 now1 now2 r' outs Hle H) as (a & Ea & Ha0).
    exists a; split; [|exact Ha0]. rewrite Hfin by discriminate. exact Ea.
  - unfold getAwakeTimeVar. rewrite Hc.
    destruct (Z.of_nat (List.length samples) <=? 1) eqn:E.
    + apply Z.leb_le in E; split; [intros _; lia | reflexivity].
    + apply Z.leb_gt in E. rewrite HM. unfold ddiv, dbl_of_Z.
      rewrite Z.mod_small by lia. rewrite qsign_pos by lia.
      split; [discriminate | intros; lia].
  - intros H2. unfold getAwakeTimeVar. rewrite Hc.
    destruct (Z.leb_spec (Z.of_nat (List.length samples)) 1) as [E|_]; [lia|].
    rewrite Z.mod_small by lia. split; [reflexivity|].
    rewrite HM. unfold ddiv, dbl_of_Z. rewrite qsign_pos by lia.
    eexists; split; [reflexivity|].
    rewrite Qred_correct.
    assert (Hp : (0 < inject_Z (Z.of_nat (List.length samples) - 1))%Q)
      by (change 0%Q with (inject_Z 0); rewrite <- Zlt_Qlt; lia).
    apply Qle_shift_div_l; [exact Hp|]. rewrite Qmult_0_l. exact HM0.
  - intros sqrt; reflexivity.
Qed.

(** C6, as stated, fails for long runs: after [reset()] and 2^32 calls of
    [sleep()] with a zero time step and the clock standing still, the
    [unsigned int] counter has wrapped to 0 and [getAwakeTime()] is NaN,
    although calls have run since the reset. *)
Lemma awake_time_nan_after_wrap :
  clock_mono example_t0 (repeat (example_t0, example_t0) (Z.to_nat UINT_MOD)) /\
  exists r' outs,
    run (reset probe_rate example_t0)
        (repeat (example_t0, example_t0) (Z.to_nat UINT_MOD)) = Some (r', outs) /\
    numTimeSteps_ r' = 0 /\ getAwakeTime r' = DNaN.
Proof.
  split.
  - apply clock_mono_const. unfold normalized, NSecPerSec_; simpl; lia.
  - destruct (run_standing_clock (Z.to_nat UINT_MOD) (reset probe_rate example_t0))
      as (r' & outs & H); [reflexivity | reflexivity | reflexivity |].
    exists r', outs; split; [exact H|].
    assert (Hc : numTimeSteps_ r' = 0).
    { destruct (run_count _ _ _ _ H) as [E | [E _]].
      - rewrite E, repeat_length, Z2Nat.id by (unfold UINT_MOD; lia).
        reflexivity.
      - destruct (Z.to_nat UINT_MOD) eqn:E'; [|discriminate].
        unfold UINT_MOD in E'; lia. }
    split; [exact Hc|]. unfold getAwakeTime; rewrite Hc; reflexivity.
Qed.

(** Witnesses: each theorem above with hypotheses, applied where they hold. *)

Lemma sleep_diag_content_witness :
  exists r' logs act,
    sleep example_rate example_now1 example_late = Some (r', logs, act) /\
    logs <> [] /\
    logs = if dgt (awakeTime_ r') (maxTimeStepError_ example_rate)
           then [MeloError (name_ example_rate) [awakeTime_ r'; timeStep_ example_rate]]
           else if dgt (awakeTime_ r') (maxTimeStepWarning_ example_rate)
           then [MeloWarn (name_ example_rate) [awakeTime_ r'; timeStep_ example_rate]]
           else [].
Proof.
  destruct (sleep example_rate example_now1 example_late) as [[[r' logs] act]|] eqn:E;
    [|vm_compute in E; discriminate].
  exists r', logs, act; split; [reflexivity|]. split.
  - vm_compute in E. injection E as _ <- _. discriminate.
  - apply (sleep_diag_content example_rate example_now1 example_late r' logs act).
    exact E.
Defined.

Lemma stepTime_never_rewound_witness :
  TimeStepIsValid (timeStep_ example_rate) = true /\
  exists r' logs act,
    sleep example_rate example_now1 example_now1 = Some (r', logs, act) /\
    ts_val (stepTime_ example_rate) <= ts_val (stepTime_ r') /\
    (forall v, stepTime_ (fst (setTimeStep example_rate v)) = stepTime_ example_rate) /\
    (forall v, stepTime_ (fst (setMaxTimeStepWarning example_rate v)) = stepTime_ example_rate) /\
    (forall v, stepTime_ (fst (setMaxTimeStepError example_rate v)) = stepTime_ example_rate) /\
    (forall b, stepTime_ (setEnforceRate example_rate b) = stepTime_ example_rate) /\
    (forall now, stepTime_ (reset example_rate now) = now).
Proof.
  split; [reflexivity|].
  destruct (sleep example_rate example_now1 example_now1) as [[[r' logs] act]|] eqn:E;
    [|vm_compute in E; discriminate].
  exists r', logs, act; split; [reflexivity|].
  apply (stepTime_never_rewound example_rate example_now1 example_now1 r' logs act);
    [reflexivity | exact E].
Defined.


Lemma welford_matches_direct_witness :
  (0 < List.length [1; 2; 4]%Q)%nat /\ Z.of_nat (List.length [1; 2; 4]%Q) < UINT_MOD /\
  exists m M,
    feed_stats (map DFin [1; 2; 4]%Q) = (Z.of_nat (List.length [1; 2; 4]%Q), DFin m, DFin M) /\
    (m == mean_direct [1; 2; 4]%Q)%Q /\
    ((2 <= List.length [1; 2; 4]%Q)%nat ->
     exists v, ddiv (DFin M) (dbl_of_Z (Z.of_nat (List.length [1; 2; 4]%Q) - 1)) = DFin v /\
               (v == var_direct [1; 2; 4]%Q)%Q).
Proof.
  split; [simpl; lia|]. split; [vm_compute; reflexivity|].
  apply (welford_matches_direct [1; 2; 4]%Q); [simpl; lia | vm_compute; reflexivity].
Defined.

(** A probe run: 0.08 s of work, then a cycle whose two readings
    coincide. *)
Lemma zero_time_step_never_blocks_witness :
  clock_mono example_t0 [(example_now1, example_late); (example_late, example_late)] /\
  exists r' outs,
    run (reset probe_rate example_t0)
        [(example_now1, example_late); (example_late, example_late)] = Some (r', outs) /\
    Forall2 (fun (s : timespec * timespec) (o : Rate * list diag * action) =>
               let '(_, now2) := s in
               let '(ri, logs, act) := o in
               logs = threshold_diags ri (awakeTime_ ri) /\
               match act with
               | NoWait => True
               | NanosleepAbs _ T => ts_val T <= ts_val now2
               end) [(example_now1, example_late); (example_late, example_late)] outs /\
    numTimeSteps_ r' = Z.of_nat 2 mod UINT_MOD /\
    (numTimeSteps_ r', awakeTimeMean_ r', awakeTimeM2_ r') = feed_stats (awake_times outs).
Proof.
  assert (Hm : clock_mono example_t0
                 [(example_now1, example_late); (example_late, example_late)])
    by (simpl; unfold normalized, ts_val, NSecPerSec_; simpl; repeat split; lia).
  split; [exact Hm|].
  destruct (run (reset probe_rate example_t0)
                [(example_now1, example_late); (example_late, example_late)])
    as [[r' outs]|] eqn:E; [|vm_compute in E; discriminate].
  exists r', outs; split; [reflexivity|].
  apply (zero_time_step_never_blocks probe_rate example_t0 0%Q
           [(example_now1, example_late); (example_late, example_late)] r' outs);
    [reflexivity | reflexivity | unfold normalized, NSecPerSec_; simpl; lia
    | exact Hm | exact E].
Defined.

Lemma awake_accessors_after_reset_witness :
  clock_mono example_t0 [(example_now1, example_late); (example_late, example_late)] /\
  Z.of_nat 2 < UINT_MOD /\
  exists r' outs,
    run (reset example_rate example_t0)
        [(example_now1, example_late); (example_late, example_late)] = Some (r', outs) /\
    (getAwakeTime r' = DNaN <-> [(example_now1, example_late); (example_late, example_late)] = []) /\
    (getAwakeTimeMean r' = DNaN <->
       [(example_now1, example_late); (example_late, example_late)] = []) /\
    (List.length [(example_now1, example_late); (example_late, example_late)] = 1%nat ->
     exists a, getAwakeTime r' = DFin a /\ (0 <= a)%Q) /\
    (getAwakeTimeVar r' = DNaN <->
       (List.length [(example_now1, example_late); (example_late, example_late)] <= 1)%nat) /\
    ((2 <= List.length [(example_now1, example_late); (example_late, example_late)])%nat ->
     getAwakeTimeVar r' = ddiv (awakeTimeM2_ r') (dbl_of_Z (numTimeSteps_ r' - 1)) /\
     exists v, getAwakeTimeVar r' = DFin v /\ (0 <= v)%Q) /\
    (forall sqrt, getAwakeTimeStdDev sqrt r' = sqrt (getAwakeTimeVar r')).
Proof.
  assert (Hm : clock_mono example_t0
                 [(example_now1, example_late); (example_late, example_late)])
    by (simpl; unfold normalized, ts_val, NSecPerSec_; simpl; repeat split; lia).
  split; [exact Hm|]. split; [vm_compute; reflexivity|].
  destruct (run (reset example_rate example_t0)
                [(example_now1, example_late); (example_late, example_late)])
    as [[r' outs]|] eqn:E; [|vm_compute in E; discriminate].
  exists r', outs; split; [reflexivity|].
  apply (awake_accessors_after_reset example_rate example_t0
           [(example_now1, example_late); (example_late, example_late)] r' outs);
    [exact Hm | vm_compute; reflexivity | exact E].
Defined.

(** ** Further properties of the code *)

Lemma dge_fin_zero q : dge (DFin q) (DFin 0) = true <-> (0 <= q)%Q.
Proof.
  unfold dge, dcmp. destruct (Qcompare_spec q 0) as [E|E|E];
    split; intros H; try reflexivity; try discriminate; lra.
Qed.

Lemma MaxTimeStepIsValid_fin q : MaxTimeStepIsValid (DFin q) = true <-> (0 <= q)%Q.
Proof.
  unfold MaxTimeStepIsValid; cbn [isnan negb]; rewrite andb_true_r.
  apply dge_fin_zero.
Qed.

Lemma TimeStepIsValid_fin_iff q : TimeStepIsValid (DFin q) = true <-> (0 <= q)%Q.
Proof.
  unfold TimeStepIsValid; cbn [isinf isnan negb]; rewrite !andb_true_r.
  apply dge_fin_zero.
Qed.

(** The configuration fields a run of [sleep()] leaves alone. *)
Lemma run_config samples : forall r r' outs,
  run r samples = Some (r', outs) ->
  name_ r' = name_ r /\ timeStep_ r' = timeStep_ r /\
  maxTimeStepWarning_ r' = maxTimeStepWarning_ r /\
  maxTimeStepError_ r' = maxTimeStepError_ r /\
  enforceRate_ r' = enforceRate_ r /\ clockId_ r' = clockId_ r.
Proof.
  induction samples as [|[now1 now2] rest IH]; intros r r' outs H.
  - simpl in H; injection H as <- _; repeat split.
  - apply run_cons_inv in H as (r1 & logs & act & outs' & Hs & Hr & _).
    apply sleep_fields in Hs as (_ & _ & _ & _ & E1 & E2 & E3 & E4 & E5 & E6).
    destruct (IH r1 r' outs' Hr) as (F1 & F2 & F3 & F4 & F5 & F6).
    repeat split; congruence.
Qed.

(** X: the six-argument constructor.  Each of the three values is stored
    when its setter accepts it; a refused one leaves the member at its
    initial value and logs one error, in the order time step, warning
    threshold, error threshold.  Name, clock and [enforceRate] are stored
    as given, and the pacer starts freshly reset at the clock reading. *)
Theorem Rate_Rate_fields init name ts w e enforce clk now :
  let '(r, logs) := Rate_Rate init name ts w e enforce clk now in
  name_ r = name /\ clockId_ r = clk /\ enforceRate_ r = enforce /\
  timeStep_ r = (if TimeStepIsValid ts then ts else timeStep_ init) /\
  maxTimeStepWarning_ r = (if MaxTimeStepIsValid w then w else maxTimeStepWarning_ init) /\
  maxTimeStepError_ r = (if MaxTimeStepIsValid e then e else maxTimeStepError_ init) /\
  numTimeSteps_ r = 0 /\ numWarnings_ r = 0 /\ numErrors_ r = 0 /\
  awakeTime_ r = DFin 0 /\ awakeTimeMean_ r = DFin 0 /\ awakeTimeM2_ r = DFin 0 /\
  sleepStartTime_ r = now /\ sleepEndTime_ r = now /\ stepTime_ r = now /\
  logs = (if TimeStepIsValid ts then [] else [MeloError name [ts]]) ++
         (if MaxTimeStepIsValid w then [] else [MeloError name [w]]) ++
         (if MaxTimeStepIsValid e then [] else [MeloError name [e]]).
Proof.
  unfold Rate_Rate, setTimeStep, setMaxTimeStepWarning, setMaxTimeStepError,
    setEnforceRate, reset.
  destruct (TimeStepIsValid ts), (MaxTimeStepIsValid w), (MaxTimeStepIsValid e);
    simpl; repeat split.
Qed.

(** X: [Rate(name, timeStep)] with a valid time step stores it, sets the
    warning threshold to it and the error threshold to ten times it,
    enforces the rate on [CLOCK_MONOTONIC] and logs nothing. *)
Theorem Rate_Rate_default_valid init name ts now :
  TimeStepIsValid ts = true ->
  let '(r, logs) := Rate_Rate_default init name ts now in
  timeStep_ r = ts /\ maxTimeStepWarning_ r = ts /\
  maxTimeStepError_ r = dmul (DFin 10) ts /\
  enforceRate_ r = true /\ clockId_ r = CLOCK_MONOTONIC /\ logs = [].
Proof.
  intros Hv. pose proof Hv as Hv'.
  apply TimeStepIsValid_fin in Hv' as [q [-> Hq]].
  assert (Hw : MaxTimeStepIsValid (DFin q) = true) by (apply MaxTimeStepIsValid_fin; exact Hq).
  assert (He : MaxTimeStepIsValid (dmul (DFin 10) (DFin q)) = true).
  { change (dmul (DFin 10) (DFin q)) with (DFin (Qred (10 * q))).
    apply MaxTimeStepIsValid_fin. rewrite Qred_correct. lra. }
  unfold Rate_Rate_default, Rate_Rate, setTimeStep, setMaxTimeStepWarning,
    setMaxTimeStepError, setEnforceRate, reset.
  rewrite Hv, Hw, He. simpl. repeat split.
Qed.

(** X: [Rate(name, timeStep)] with an invalid time step keeps the initial
    time step.  For plus infinity only that one error is logged, and both
    thresholds become plus infinity ([10.0*inf] is a valid threshold); for
    any other invalid value (negative, minus infinity, NaN) all three
    setters refuse, three errors are logged and all three members keep
    their initial values. *)
Theorem Rate_Rate_default_invalid init name ts now :
  TimeStepIsValid ts = false ->
  let '(r, logs) := Rate_Rate_default init name ts now in
  timeStep_ r = timeStep_ init /\
  (ts = DPInf ->
   maxTimeStepWarning_ r = DPInf /\ maxTimeStepError_ r = DPInf /\
   logs = [MeloError name [DPInf]]) /\
  (ts <> DPInf ->
   maxTimeStepWarning_ r = maxTimeStepWarning_ init /\
   maxTimeStepError_ r = maxTimeStepError_ init /\
   logs = [MeloError name [ts]; MeloError name [ts];
           MeloError name [dmul (DFin 10) ts]]).
Proof.
  intros Hv.
  unfold Rate_Rate_default, Rate_Rate, setTimeStep, setMaxTimeStepWarning,
    setMaxTimeStepError, setEnforceRate, reset.
  destruct ts as [q| | |].
  - assert (Hq : ~ (0 <= q)%Q) by (rewrite <- TimeStepIsValid_fin_iff; congruence).
    assert (Hw : MaxTimeStepIsValid (DFin q) = false).
    { destruct (MaxTimeStepIsValid (DFin q)) eqn:E; [|reflexivity].
      apply MaxTimeStepIsValid_fin in E; contradiction. }
    assert (He : MaxTimeStepIsValid (dmul (DFin 10) (DFin q)) = false).
    { change (dmul (DFin 10) (DFin q)) with (DFin (Qred (10 * q))).
      destruct (MaxTimeStepIsValid (DFin (Qred (10 * q)))) eqn:E; [|reflexivity].
      apply MaxTimeStepIsValid_fin in E; rewrite Qred_correct in E.
      exfalso; apply Hq; lra. }
    rewrite Hv, Hw, He. simpl.
    split; [reflexivity|]. split; [discriminate|]. intros _; repeat split.
  - simpl. split; [reflexivity|]. split; [intros _; repeat split|].
    intros C; contradiction.
  - simpl. split; [reflexivity|]. split; [discriminate|]. intros _; repeat split.
  - simpl. split; [reflexivity|]. split; [discriminate|]. intros _; repeat split.
Qed.

(** X: the move constructor does not carry [sleepEndTime_] over.  The
    first [sleep()] of the new pacer measures its awake time from the
    initial [sleepEndTime_] of Rate.hpp, while its schedule (new target,
    wait, end of the call) and its call counter are those the moved-from
    pacer's [sleep()] would have produced. *)
Theorem Rate_Rate_move_sleep initStart initEnd r now1 now2 r1 l1 a1 r2 l2 a2 :
  sleep (Rate_Rate_move initStart initEnd r) now1 now2 = Some (r1, l1, a1) ->
  sleep r now1 now2 = Some (r2, l2, a2) ->
  GetDuration initEnd now1 = Some (awakeTime_ r1) /\
  stepTime_ r1 = stepTime_ r2 /\ sleepEndTime_ r1 = sleepEndTime_ r2 /\
  a1 = a2 /\ numTimeSteps_ r1 = numTimeSteps_ r2.
Proof.
  intros H1 H2.
  pose proof (sleep_count _ _ _ _ _ _ H1) as C1.
  pose proof (sleep_count _ _ _ _ _ _ H2) as C2.
  pose proof H1 as F1. apply sleep_fields in F1 as (Haw & _).
  apply sleep_inv in H1 as (aw1 & n1 & mean1 & m21 & w1 & e1 & lg1 & step1 & d1 &
                            _ & _ & _ & Hstep1 & Hd1 & Hres1).
  apply sleep_inv in H2 as (aw2 & n2 & mean2 & m22 & w2 & e2 & lg2 & step2 & d2 &
                            _ & _ & _ & Hstep2 & Hd2 & Hres2).
  change (stepTime_ (Rate_Rate_move initStart initEnd r)) with (stepTime_ r) in *.
  change (timeStep_ (Rate_Rate_move initStart initEnd r)) with (timeStep_ r) in *.
  change (enforceRate_ (Rate_Rate_move initStart initEnd r)) with (enforceRate_ r) in *.
  change (clockId_ (Rate_Rate_move initStart initEnd r)) with (clockId_ r) in *.
  change (numTimeSteps_ (Rate_Rate_move initStart initEnd r)) with (numTimeSteps_ r) in C1.
  change (sleepEndTime_ (Rate_Rate_move initStart initEnd r)) with initEnd in Haw.
  rewrite Hstep1 in Hstep2; injection Hstep2 as <-.
  rewrite Hd1 in Hd2; injection Hd2 as <-.
  split; [exact Haw|]. split; [|split; [|split]]; [| | |congruence];
    destruct (dlt d1 (DFin 0)), (enforceRate_ r); simpl in Hres1, Hres2;
    injection Hres1 as -> _ ->; injection Hres2 as -> _ ->; reflexivity.
Qed.

(** X: every valid time step is a valid threshold, and the one value valid
    as a threshold but not as a time step is plus infinity. *)
Theorem valid_time_step_vs_threshold v :
  (TimeStepIsValid v = true -> MaxTimeStepIsValid v = true) /\
  (MaxTimeStepIsValid v = true /\ TimeStepIsValid v = false <-> v = DPInf).
Proof.
  destruct v as [q| | |].
  - rewrite TimeStepIsValid_fin_iff, MaxTimeStepIsValid_fin.
    split; [auto|]. split; [|discriminate].
    intros [H1 H2]. rewrite <- TimeStepIsValid_fin_iff in H1. congruence.
  - split; [discriminate|]. split; [reflexivity|]. intros _; split; reflexivity.
  - split; [discriminate|]. split; [intros [H _]; discriminate | discriminate].
  - split; [discriminate|]. split; [intros [H _]; discriminate | discriminate].
Qed.

(** X: [reset()] forgets every [sleep()]: after any run, it gives the state
    a [reset()] at the same instant before the run would have given. *)
Theorem reset_forgets_run r samples r' outs now :
  run r samples = Some (r', outs) -> reset r' now = reset r now.
Proof.
  intros H. destruct (run_config _ _ _ _ H) as (E1 & E2 & E3 & E4 & E5 & E6).
  unfold reset; rewrite E1, E2, E3, E4, E5, E6; reflexivity.
Qed.

Lemma uint_incr_range x : 0 <= uint_incr x < UINT_MOD.
Proof. unfold uint_incr, UINT_MOD. apply Z.mod_pos_bound. lia. Qed.

Lemma run_threshold_counts samples : forall r r' outs,
  0 <= numErrors_ r < UINT_MOD -> 0 <= numWarnings_ r < UINT_MOD ->
  run r samples = Some (r', outs) ->
  numErrors_ r' = (numErrors_ r + Z.of_nat (count_errors outs)) mod UINT_MOD /\
  numWarnings_ r' = (numWarnings_ r + Z.of_nat (count_warnings outs)) mod UINT_MOD.
Proof.
  induction samples as [|[now1 now2] rest IH]; intros r r' outs He Hw H.
  - simpl in H; injection H as <- <-. simpl.
    rewrite !Z.add_0_r, !Z.mod_small by lia. split; reflexivity.
  - apply run_cons_inv in H as (r1 & logs & act & outs' & Hs & Hr & ->).
    apply sleep_fields in Hs as (_ & _ & Hth & _ & _ & _ & Ew & Ee & _).
    assert (Ce : count_errors ((r1, logs, act) :: outs') =
                 ((if dgt (awakeTime_ r1) (maxTimeStepError_ r) then 1 else 0)
                  + count_errors outs')%nat).
    { unfold count_errors; simpl; rewrite Ee; destruct (dgt _ _); reflexivity. }
    assert (Cw : count_warnings ((r1, logs, act) :: outs') =
                 ((if negb (dgt (awakeTime_ r1) (maxTimeStepError_ r)) &&
                      dgt (awakeTime_ r1) (maxTimeStepWarning_ r) then 1 else 0)
                  + count_warnings outs')%nat).
    { unfold count_warnings; simpl; rewrite Ee, Ew.
      destruct (negb _ && _); reflexivity. }
    rewrite Ce, Cw, !Nat2Z.inj_add.
    unfold check_thresholds in Hth.
    destruct (dgt (awakeTime_ r1) (maxTimeStepError_ r)) eqn:D1;
      [|destruct (dgt (awakeTime_ r1) (maxTimeStepWarning_ r)) eqn:D2];
      injection Hth as Hw1 He1 _; simpl andb; cbn match.
    + destruct (IH r1 r' outs') as [F1 F2];
        [rewrite <- He1; apply uint_incr_range | rewrite <- Hw1; lia | exact Hr |].
      rewrite F1, F2, <- He1, <- Hw1. unfold uint_incr.
      rewrite Zplus_mod_idemp_l. simpl Z.of_nat.
      split; f_equal; lia.
    + destruct (IH r1 r' outs') as [F1 F2];
        [rewrite <- He1; lia | rewrite <- Hw1; apply uint_incr_range | exact Hr |].
      rewrite F1, F2, <- He1, <- Hw1. unfold uint_incr.
      rewrite Zplus_mod_idemp_l. simpl Z.of_nat.
      split; f_equal; lia.
    + destruct (IH r1 r' outs') as [F1 F2];
        [rewrite <- He1; lia | rewrite <- Hw1; lia | exact Hr |].
      rewrite F1, F2, <- He1, <- Hw1. simpl Z.of_nat.
      split; f_equal; lia.
Qed.

(** X: after [reset()] and any calls of [sleep()], [numErrors_] counts the
    calls whose awake time exceeded the error threshold and [numWarnings_]
    those that exceeded only the warning threshold, both modulo 2^32. *)
Theorem run_counts_threshold_violations r t0 samples r' outs :
  run (reset r t0) samples = Some (r', outs) ->
  numErrors_ r' = Z.of_nat (count_errors outs) mod UINT_MOD /\
  numWarnings_ r' = Z.of_nat (count_warnings outs) mod UINT_MOD.
Proof.
  intros H.
  destruct (run_threshold_counts samples (reset r t0) r' outs) as [E W];
    [unfold UINT_MOD; simpl; lia | unfold UINT_MOD; simpl; lia | exact H |].
  split; [exact E | exact W].
Qed.

Lemma run_awake_fin samples : forall r r' outs,
  run r samples = Some (r', outs) ->
  exists xs, awake_times outs = map DFin xs /\ List.length xs = List.length samples.
Proof.
  induction samples as [|[now1 now2] rest IH]; intros r r' outs H.
  - simpl in H; injection H as <- <-. exists []; split; reflexivity.
  - apply run_cons_inv in H as (r1 & logs & act & outs' & Hs & Hr & ->).
    apply sleep_fields in Hs as (Haw & _).
    destruct (GetDuration_val _ _ _ Haw) as (a & Ea & _).
    destruct (IH r1 r' outs' Hr) as (xs & Exs & Hl).
    exists (a :: xs). split.
    + cbn [awake_times map]. unfold awake_times in Exs. rewrite Ea, Exs. reflexivity.
    + simpl; rewrite Hl; reflexivity.
Qed.

(** X: after [reset()] and N calls of [sleep()], 0 < N < 2^32, every
    measured awake time is finite, [awakeTimeMean_] is their arithmetic
    mean and, for N >= 2, [getAwakeTimeVar()] is their unbiased sample
    variance (in exact arithmetic). *)
Theorem run_mean_var r t0 samples r' outs :
  run (reset r t0) samples = Some (r', outs) ->
  (0 < List.length samples)%nat -> Z.of_nat (List.length samples) < UINT_MOD ->
  exists xs m,
    awake_times outs = map DFin xs /\
    awakeTimeMean_ r' = DFin m /\ (m == mean_direct xs)%Q /\
    ((2 <= List.length samples)%nat ->
     exists v, getAwakeTimeVar r' = DFin v /\ (v == var_direct xs)%Q).
Proof.
  intros H Hpos Hlt.
  pose proof (run_fold _ _ _ _ H) as Hf. simpl in Hf.
  destruct (run_awake_fin _ _ _ _ H) as (xs & Exs & Hl).
  rewrite Exs in Hf. rewrite <- Hl in Hpos, Hlt |- *.
  destruct (feed_fin xs 0 0 0 0 0) as (m & M & Hf' & [H1 H2]);
    [lia | lia | unfold welford_inv; split; ring |].
  rewrite Hf' in Hf. injection Hf as Hn Hm HM.
  try rewrite Z.add_0_l in Hn; try rewrite Z.add_0_l in H1.
  exists xs, m. split; [exact Exs|]. split; [symmetry; exact Hm|].
  set (n := Z.of_nat (List.length xs)) in *.
  assert (Hnz : ~ (inject_Z n == 0)%Q).
  { intros E. change 0%Q with (inject_Z 0) in E. rewrite inject_Z_injective in E. lia. }
  assert (Hmd : (m == mean_direct xs)%Q).
  { unfold mean_direct; fold n. rewrite Qplus_0_l in H1. rewrite <- H1. field. exact Hnz. }
  split; [exact Hmd|].
  intros H2le.
  unfold getAwakeTimeVar. rewrite <- Hn, <- HM.
  destruct (Z.leb_spec n 1) as [E|_]; [lia|].
  rewrite Z.mod_small by lia.
  unfold ddiv, dbl_of_Z. rewrite qsign_pos by lia.
  eexists; split; [reflexivity|].
  assert (Hn1 : ~ (inject_Z (n - 1) == 0)%Q).
  { intros E. change 0%Q with (inject_Z 0) in E. rewrite inject_Z_injective in E. lia. }
  rewrite Qred_correct.
  unfold var_direct; fold n.
  rewrite sum_sq_dev; fold n.
  rewrite <- Hmd, H2, !Qplus_0_l.
  rewrite Qplus_0_l in H1. rewrite <- H1.
  field. exact Hn1.
Qed.

Lemma GetDuration_nonneg a b d :
  ts_val a <= ts_val b -> GetDuration a b = Some d ->
  exists q, d = DFin q /\ (0 <= q)%Q.
Proof.
  intros Hle H. destruct (GetDuration_val _ _ _ H) as (q & -> & Hv).
  exists q; split; [reflexivity|].
  assert (Hz : (0 <= inject_Z (ts_val b - ts_val a))%Q)
    by (change 0%Q with (inject_Z 0); rewrite <- Zle_Qle; lia).
  rewrite <- Hv in Hz. change (inject_Z NSecPerSec_) with (1000000000 # 1)%Q in Hz.
  lra.
Qed.

(** What [sleep()] leaves in [sleepEndTime_]: the second reading when it
    does not wait, the target when it does. *)
Lemma sleep_end_time r now1 now2 r' logs act :
  sleep r now1 now2 = Some (r', logs, act) ->
  sleepEndTime_ r' = match act with NoWait => now2 | NanosleepAbs _ T => T end.
Proof.
  intros H.
  apply sleep_inv in H as (aw & n & mean & m2 & w & e & lg & step & d &
                           _ & _ & _ & _ & _ & Hres).
  destruct (dlt d (DFin 0)), (enforceRate_ r); simpl in Hres;
    injection Hres as -> _ ->; reflexivity.
Qed.

Lemma run_awake_nonneg samples : forall r last r' outs,
  sleepEndTime_ r = last ->
  run r samples = Some (r', outs) -> clock_honours last samples outs ->
  Forall (fun a => exists q, a = DFin q /\ (0 <= q)%Q) (awake_times outs).
Proof.
  induction samples as [|[now1 now2] rest IH]; intros r last r' outs Hl H Hc.
  - simpl in H; injection H as _ <-; constructor.
  - apply run_cons_inv in H as (r1 & logs & act & outs' & Hs & Hr & ->).
    destruct Hc as (Hle & Hc).
    pose proof (sleep_end_time _ _ _ _ _ _ Hs) as Hend.
    apply sleep_fields in Hs as (Haw & _).
    rewrite Hl in Haw.
    cbn [awake_times map]. constructor.
    + apply (GetDuration_nonneg last now1); [lia | exact Haw].
    + exact (IH r1 _ r' outs' Hend Hr Hc).
Qed.

(** X: on a clock that does not go backwards and under which
    [clock_nanosleep] does not return before its target, every awake time
    [sleep()] measures after [reset()] is finite and non-negative. *)
Theorem awake_times_nonneg r t0 samples r' outs :
  run (reset r t0) samples = Some (r', outs) ->
  clock_honours t0 samples outs ->
  Forall (fun a => exists q, a = DFin q /\ (0 <= q)%Q) (awake_times outs).
Proof.
  intros H Hc. exact (run_awake_nonneg samples (reset r t0) t0 r' outs eq_refl H Hc).
Qed.

Lemma advance_step_time_overflow st q :
  (inject_Z (LONG_MAX + 1 - tv_nsec st) <= q * inject_Z NSecPerSec_)%Q ->
  advance_step_time st (DFin q) = None.
Proof.
  intros Hq.
  cbv beta iota delta [advance_step_time long_of_dbl dbl_of_Z dadd dmul].
  assert (Hge : LONG_MAX + 1 <=
                Qtrunc (Qred (inject_Z (tv_nsec st) + Qred (q * inject_Z NSecPerSec_)))).
  { apply Qtrunc_ge. rewrite !Qred_correct.
    unfold Z.sub in Hq; rewrite !inject_Z_plus, inject_Z_opp in Hq.
    rewrite inject_Z_plus. lra. }
  unfold to_long at 1.
  destruct (Z.leb_spec (Qtrunc (Qred (inject_Z (tv_nsec st) + Qred (q * inject_Z NSecPerSec_))))
              LONG_MAX) as [E|_]; [lia|].
  rewrite andb_false_r. reflexivity.
Qed.

(** X: [setTimeStep] accepts finite time steps for which [sleep()] has
    undefined behaviour: when [tv_nsec + timeStep * 10^9] of the target
    reaches 2^63, the conversion to [long] in line 193 overflows. *)
Theorem sleep_undefined_for_huge_time_step r now1 now2 q :
  timeStep_ r = DFin q -> normalized (stepTime_ r) ->
  (inject_Z (LONG_MAX + 1 - tv_nsec (stepTime_ r)) <= q * inject_Z NSecPerSec_)%Q ->
  TimeStepIsValid (timeStep_ r) = true /\ sleep r now1 now2 = None.
Proof.
  intros Hts Hn Hq. split.
  - rewrite Hts. apply TimeStepIsValid_fin_iff.
    unfold normalized, NSecPerSec_, LONG_MAX in *.
    assert (Hp : (0 <= inject_Z (2 ^ 63 - 1 + 1 - tv_nsec (stepTime_ r)))%Q)
      by (change 0%Q with (inject_Z 0); rewrite <- Zle_Qle; lia).
    change (inject_Z 1000000000) with (1000000000 # 1)%Q in Hq. lra.
  - unfold sleep.
    destruct (GetDuration (sleepEndTime_ r) now1) as [aw|]; [|reflexivity].
    destruct (update_stats _ _ _ aw) as [[n mean] m2].
    destruct (check_thresholds r aw) as [[w e] logs].
    rewrite Hts, advance_step_time_overflow by exact Hq. reflexivity.
Qed.

Lemma advance_step_time_defined st q :
  normalized st -> - 2 ^ 60 <= tv_sec st <= 2 ^ 60 ->
  (0 <= q)%Q -> (q <= inject_Z 1000000000)%Q ->
  exists st', advance_step_time st (DFin q) = Some st' /\ normalized st' /\
              - 2 ^ 60 <= tv_sec st' <= 2 ^ 60 + 1000000001.
Proof.
  intros Hn Hs Hq0 Hq1.
  cbv beta iota delta [advance_step_time long_of_dbl dbl_of_Z dadd dmul].
  set (X := Qred (inject_Z (tv_nsec st) + Qred (q * inject_Z NSecPerSec_))).
  assert (EX : (X == inject_Z (tv_nsec st) + q * (1000000000 # 1))%Q)
    by (unfold X; rewrite !Qred_correct; reflexivity).
  unfold normalized, NSecPerSec_ in Hn.
  assert (Hn0 : (0 <= inject_Z (tv_nsec st))%Q)
    by (change 0%Q with (inject_Z 0); rewrite <- Zle_Qle; lia).
  assert (Hn1 : (inject_Z (tv_nsec st) <= inject_Z 1000000000)%Q)
    by (rewrite <- Zle_Qle; lia).
  change (inject_Z 1000000000) with (1000000000 # 1)%Q in Hq1, Hn1.
  assert (HX0 : (0 <= X)%Q) by (rewrite EX; nra).
  assert (HX1 : (X <= inject_Z (1000000000000000000 + 1000000000))%Q).
  { rewrite EX. change (inject_Z (1000000000000000000 + 1000000000))
      with (1000000001000000000 # 1)%Q. nra. }
  assert (T0 : 0 <= Qtrunc X) by (apply Qtrunc_ge; exact HX0).
  assert (T1 : Qtrunc X <= 1000000000000000000 + 1000000000).
  { rewrite Qtrunc_floor by exact HX0.
    rewrite <- (Qfloor_Z (1000000000000000000 + 1000000000)).
    apply Qfloor_resp_le; exact HX1. }
  rewrite (to_long_in (Qtrunc X)) by (unfold LONG_MIN, LONG_MAX; lia).
  assert (Hd : 0 <= Z.quot (Qtrunc X) NSecPerSec_ <= 1000000001).
  { rewrite Z.quot_div_nonneg by (unfold NSecPerSec_; lia). split.
    - apply Z.div_pos; unfold NSecPerSec_; lia.
    - apply Z.div_le_upper_bound; unfold NSecPerSec_; lia. }
  rewrite (to_long_in (tv_sec st + Z.quot (Qtrunc X) NSecPerSec_))
    by (unfold LONG_MIN, LONG_MAX; lia).
  eexists; split; [reflexivity|]. split.
  - unfold normalized; simpl. apply Z.rem_bound_pos; unfold NSecPerSec_; lia.
  - simpl; lia.
Qed.

(** X: [sleep()] is free of undefined behaviour whenever the four
    timestamps it reads (its two clock readings, [sleepEndTime_] and
    [stepTime_]) are normalised with seconds within +-2^60, and the time
    step lies between 0 and 10^9 s. *)
Theorem sleep_defined r now1 now2 q :
  timeStep_ r = DFin q -> (0 <= q)%Q -> (q <= inject_Z 1000000000)%Q ->
  normalized (sleepEndTime_ r) -> normalized (stepTime_ r) ->
  normalized now1 -> normalized now2 ->
  - 2 ^ 60 <= tv_sec (sleepEndTime_ r) <= 2 ^ 60 ->
  - 2 ^ 60 <= tv_sec (stepTime_ r) <= 2 ^ 60 ->
  - 2 ^ 60 <= tv_sec now1 <= 2 ^ 60 ->
  - 2 ^ 60 <= tv_sec now2 <= 2 ^ 60 ->
  exists res, sleep r now1 now2 = Some res.
Proof.
  intros Hts Hq0 Hq1 He Hs H1 H2 Be Bs B1 B2.
  destruct (advance_step_time_defined (stepTime_ r) q Hs Bs Hq0 Hq1)
    as (st' & Ha & Hn' & B').
  eapply (sleep_some r now1 now2 _ st' _).
  - apply GetDuration_defined; [unfold LONG_MIN, LONG_MAX; lia | exact He | exact H1].
  - rewrite Hts; exact Ha.
  - apply GetDuration_defined; [unfold LONG_MIN, LONG_MAX; lia | exact H2 | exact Hn'].
Qed.

(** Witnesses of the properties above. *)

Lemma Rate_Rate_default_valid_witness :
  TimeStepIsValid (DFin (1 # 10)) = true /\
  let '(r, logs) := Rate_Rate_default example_rate "worker" (DFin (1 # 10)) example_t0 in
  timeStep_ r = DFin (1 # 10) /\ maxTimeStepWarning_ r = DFin (1 # 10) /\
  maxTimeStepError_ r = dmul (DFin 10) (DFin (1 # 10)) /\
  enforceRate_ r = true /\ clockId_ r = CLOCK_MONOTONIC /\ logs = [].
Proof.
  split; [reflexivity|].
  apply (Rate_Rate_default_valid example_rate "worker" (DFin (1 # 10)) example_t0).
  reflexivity.
Defined.

Lemma Rate_Rate_default_invalid_witness :
  TimeStepIsValid DPInf = false /\
  let '(r, logs) := Rate_Rate_default example_rate "worker" DPInf example_t0 in
  timeStep_ r = timeStep_ example_rate /\
  (DPInf = DPInf ->
   maxTimeStepWarning_ r = DPInf /\ maxTimeStepError_ r = DPInf /\
   logs = [MeloError "worker" [DPInf]]) /\
  (DPInf <> DPInf ->
   maxTimeStepWarning_ r = maxTimeStepWarning_ example_rate /\
   maxTimeStepError_ r = maxTimeStepError_ example_rate /\
   logs = [MeloError "worker" [DPInf]; MeloError "worker" [DPInf];
           MeloError "worker" [dmul (DFin 10) DPInf]]).
Proof.
  split; [reflexivity|].
  apply (Rate_Rate_default_invalid example_rate "worker" DPInf example_t0).
  reflexivity.
Defined.

Lemma Rate_Rate_move_sleep_witness :
  exists r1 l1 a1 r2 l2 a2,
    sleep (Rate_Rate_move (mkTimespec 0 0) (mkTimespec 0 0) example_rate)
      example_now1 example_now1 = Some (r1, l1, a1) /\
    sleep example_rate example_now1 example_now1 = Some (r2, l2, a2) /\
    GetDuration (mkTimespec 0 0) example_now1 = Some (awakeTime_ r1) /\
    stepTime_ r1 = stepTime_ r2 /\ sleepEndTime_ r1 = sleepEndTime_ r2 /\
    a1 = a2 /\ numTimeSteps_ r1 = numTimeSteps_ r2.
Proof.
  destruct (sleep (Rate_Rate_move (mkTimespec 0 0) (mkTimespec 0 0) example_rate)
              example_now1 example_now1) as [[[r1 l1] a1]|] eqn:E1;
    [|vm_compute in E1; discriminate].
  destruct (sleep example_rate example_now1 example_now1) as [[[r2 l2] a2]|] eqn:E2;
    [|vm_compute in E2; discriminate].
  exists r1, l1, a1, r2, l2, a2. split; [reflexivity|]. split; [reflexivity|].
  apply (Rate_Rate_move_sleep (mkTimespec 0 0) (mkTimespec 0 0) example_rate
           example_now1 example_now1 r1 l1 a1 r2 l2 a2); [exact E1 | exact E2].
Defined.

Lemma reset_forgets_run_witness :
  exists r' outs,
    run example_rate [(example_now1, example_late)] = Some (r', outs) /\
    reset r' example_late = reset example_rate example_late.
Proof.
  destruct (run example_rate [(example_now1, example_late)]) as [[r' outs]|] eqn:E;
    [|vm_compute in E; discriminate].
  exists r', outs; split; [reflexivity|].
  apply (reset_forgets_run example_rate [(example_now1, example_late)] r' outs
           example_late); exact E.
Defined.

Lemma run_counts_threshold_violations_witness :
  exists r' outs,
    run (reset example_rate example_t0)
        [(example_late, example_late); (example_late, example_late)] = Some (r', outs) /\
    numErrors_ r' = Z.of_nat (count_errors outs) mod UINT_MOD /\
    numWarnings_ r' = Z.of_nat (count_warnings outs) mod UINT_MOD.
Proof.
  destruct (run (reset example_rate example_t0)
                [(example_late, example_late); (example_late, example_late)])
    as [[r' outs]|] eqn:E; [|vm_compute in E; discriminate].
  exists r', outs; split; [reflexivity|].
  apply (run_counts_threshold_violations example_rate example_t0
           [(example_late, example_late); (example_late, example_late)] r' outs).
  exact E.
Defined.

Lemma run_mean_var_witness :
  exists r' outs,
    run (reset example_rate example_t0)
        [(example_now1, example_now1); (example_late, example_late)] = Some (r', outs) /\
    (0 < List.length [(example_now1, example_now1); (example_late, example_late)])%nat /\
    Z.of_nat (List.length [(example_now1, example_now1); (example_late, example_late)])
      < UINT_MOD /\
    exists xs m,
      awake_times outs = map DFin xs /\
      awakeTimeMean_ r' = DFin m /\ (m == mean_direct xs)%Q /\
      ((2 <= List.length [(example_now1, example_now1); (example_late, example_late)])%nat ->
       exists v, getAwakeTimeVar r' = DFin v /\ (v == var_direct xs)%Q).
Proof.
  destruct (run (reset example_rate example_t0)
                [(example_now1, example_now1); (example_late, example_late)])
    as [[r' outs]|] eqn:E; [|vm_compute in E; discriminate].
  exists r', outs. split; [reflexivity|]. split; [simpl; lia|].
  split; [vm_compute; reflexivity|].
  apply (run_mean_var example_rate example_t0
           [(example_now1, example_now1); (example_late, example_late)] r' outs);
    [exact E | simpl; lia | vm_compute; reflexivity].
Defined.

(** Two cycles: the first waits until 6.1 s, the second starts at 6.15 s. *)
Lemma awake_times_nonneg_witness :
  exists r' outs,
    run (reset example_rate example_t0)
        [(example_now1, example_now1); (mkTimespec 6 150000000, mkTimespec 6 150000000)]
      = Some (r', outs) /\
    clock_honours example_t0
        [(example_now1, example_now1); (mkTimespec 6 150000000, mkTimespec 6 150000000)]
        outs /\
    Forall (fun a => exists q, a = DFin q /\ (0 <= q)%Q) (awake_times outs).
Proof.
  destruct (run (reset example_rate example_t0)
                [(example_now1, example_now1);
                 (mkTimespec 6 150000000, mkTimespec 6 150000000)])
    as [[r' outs]|] eqn:E; [|vm_compute in E; discriminate].
  assert (Hc : clock_honours example_t0
                 [(example_now1, example_now1);
                  (mkTimespec 6 150000000, mkTimespec 6 150000000)] outs).
  { pose proof E as E'. vm_compute in E'. injection E' as _ <-.
    simpl. unfold ts_val, NSecPerSec_; simpl. lia. }
  exists r', outs. split; [reflexivity|]. split; [exact Hc|].
  apply (awake_times_nonneg example_rate example_t0
           [(example_now1, example_now1);
            (mkTimespec 6 150000000, mkTimespec 6 150000000)] r' outs);
    [exact E | exact Hc].
Defined.

Lemma sleep_undefined_for_huge_time_step_witness :
  timeStep_ huge_step_rate = DFin 10000000000 /\ normalized (stepTime_ huge_step_rate) /\
  (inject_Z (LONG_MAX + 1 - tv_nsec (stepTime_ huge_step_rate))
     <= 10000000000 * inject_Z NSecPerSec_)%Q /\
  TimeStepIsValid (timeStep_ huge_step_rate) = true /\
  sleep huge_step_rate example_now1 example_now1 = None.
Proof.
  assert (Hn : normalized (stepTime_ huge_step_rate))
    by (unfold normalized, NSecPerSec_; simpl; lia).
  assert (Hq : (inject_Z (LONG_MAX + 1 - tv_nsec (stepTime_ huge_step_rate))
                  <= 10000000000 * inject_Z NSecPerSec_)%Q)
    by (vm_compute; intros H; discriminate H).
  split; [reflexivity|]. split; [exact Hn|]. split; [exact Hq|].
  apply (sleep_undefined_for_huge_time_step huge_step_rate example_now1 example_now1
           10000000000); [reflexivity | exact Hn | exact Hq].
Defined.

Lemma sleep_defined_witness :
  exists res, sleep example_rate example_now1 example_late = Some res.
Proof.
  apply (sleep_defined example_rate example_now1 example_late (1 # 10));
    [reflexivity | unfold Qle; simpl; lia | unfold Qle; simpl; lia
    | unfold normalized, NSecPerSec_; simpl; lia
    | unfold normalized, NSecPerSec_; simpl; lia
    | unfold normalized, NSecPerSec_; simpl; lia
    | unfold normalized, NSecPerSec_; simpl; lia
    | simpl; lia | simpl; lia | simpl; lia | simpl; lia].
Defined.
